(** * AndroidAssetStudio build file (gulpfile.babel.js): model and properties

    The build file declares twelve gulp tasks, three globals and a watch
    loop.  What the file itself decides is modelled here as it is written:
    the task table with its declared dependencies, the run-sequence calls,
    the error handler attached to three plugins, the glob lists handed to
    [gulp.src] and [gulp.watch], the assignments to the globals, and the data
    flow of the [html] task.  What the plugins compute (Sass, swig,
    front-matter parsing, minification, webpack, workbox) stays a parameter. *)

From stdpp Require Import gmap strings list.
From Stdlib Require Import Ascii.

Set Warnings "-clear-no-such-hyp".

Local Open Scope stdpp_scope.

(** ** Text helpers *)

Fixpoint starts_with (t s : string) : bool :=
  match t with
  | EmptyString => true
  | String a t' =>
      match s with
      | EmptyString => false
      | String b s' => bool_decide (a = b) && starts_with t' s'
      end
  end.

Fixpoint contains (t s : string) : bool :=
  starts_with t s ||
  match s with
  | EmptyString => false
  | String _ s' => contains t s'
  end.

Fixpoint has_char (c : ascii) (s : string) : bool :=
  match s with
  | EmptyString => false
  | String d s' => bool_decide (c = d) || has_char c s'
  end.

Definition ends_with (suffix s : string) : Prop := ∃ x, s = x +:+ suffix.

Fixpoint split_go (sep : ascii) (cur : string) (s : string) : list string :=
  match s with
  | EmptyString => [String.rev cur]
  | String c s' =>
      if bool_decide (c = sep) then String.rev cur :: split_go sep EmptyString s'
      else split_go sep (String c cur) s'
  end.

(** [s.split(sep)] *)
Definition split (sep : ascii) (s : string) : list string :=
  split_go sep EmptyString s.

(** ** String.prototype.replace with a global literal pattern

    [/%%BASE_HREF%%/g] has no metacharacter, so the pattern is a literal
    token.  The scan goes left to right; where the token starts, the
    replacement is emitted and the scan resumes after the token. *)

Fixpoint replace_go (tok rep : string) (skip : nat) (s : string) : string :=
  match s with
  | EmptyString => EmptyString
  | String c s' =>
      match skip with
      | S k => replace_go tok rep k s'
      | O =>
          if starts_with tok s
          then rep +:+ replace_go tok rep (String.length tok - 1) s'
          else String c (replace_go tok rep 0 s')
      end
  end.

Definition replace_all (tok rep s : string) : string := replace_go tok rep 0 s.

(** ** Globs (the subset of minimatch the build file uses)

    A glob is split at [/]; a segment is either the globstar or a sequence
    of literal characters and [*].  The build file passes no [dot] option to
    the [html] source or to the watchers, so a name starting with a dot is
    matched only by a segment that starts with a literal dot, and the
    globstar does not descend into such a directory. *)

Inductive gatom := GChar (c : ascii) | GStar.
Inductive gseg := GlobStar | Seg (p : list gatom).
Record glob := Glob { negated : bool; segs : list gseg }.

Fixpoint wild (p : list gatom) (s : string) {struct p} : bool :=
  match p with
  | [] => match s with EmptyString => true | _ => false end
  | GChar c :: p' =>
      match s with
      | EmptyString => false
      | String d s' => bool_decide (c = d) && wild p' s'
      end
  | GStar :: p' =>
      (fix star (s : string) : bool :=
         wild p' s ||
         match s with
         | EmptyString => false
         | String _ s' => star s'
         end) s
  end.

Definition is_dot (s : string) : bool :=
  match s with String "."%char _ => true | _ => false end.

Definition pat_dot (p : list gatom) : bool :=
  match p with GChar "."%char :: _ => true | _ => false end.

Definition seg_match (p : list gatom) (s : string) : bool :=
  (negb (is_dot s) || pat_dot p) && wild p s.

Fixpoint segs_match (ps : list gseg) (path : list string) {struct ps} : bool :=
  match ps with
  | [] => match path with [] => true | _ => false end
  | Seg p :: ps' =>
      match path with
      | [] => false
      | s :: path' => seg_match p s && segs_match ps' path'
      end
  | GlobStar :: ps' =>
      (fix descend (path : list string) : bool :=
         segs_match ps' path ||
         match path with
         | [] => false
         | s :: path' => negb (is_dot s) && descend path'
         end) path
  end.

(** Brace expansion, one level: [a.{x,y}] stands for [a.x] and [a.y]. *)
Fixpoint expand_go (pre : list string) (alts : option (list string * string))
    (s : string) : list string :=
  match s with
  | EmptyString => pre
  | String c s' =>
      match alts with
      | None =>
          if bool_decide (c = "{"%char) then expand_go pre (Some ([], EmptyString)) s'
          else expand_go ((λ p, p +:+ String c EmptyString) <$> pre) None s'
      | Some (done, cur) =>
          if bool_decide (c = ","%char)
          then expand_go pre (Some (done ++ [cur], EmptyString)) s'
          else if bool_decide (c = "}"%char)
          then expand_go (p ← pre; (λ a, p +:+ a) <$> (done ++ [cur])) None s'
          else expand_go pre (Some (done, cur +:+ String c EmptyString)) s'
      end
  end.

Definition expand_braces (s : string) : list string :=
  expand_go [EmptyString] None s.

Fixpoint atoms_of (s : string) : list gatom :=
  match s with
  | EmptyString => []
  | String c s' => (if bool_decide (c = "*"%char) then GStar else GChar c) :: atoms_of s'
  end.

Definition seg_of (s : string) : gseg :=
  if bool_decide (s = "**") then GlobStar else Seg (atoms_of s).

Definition parse_glob (s : string) : list glob :=
  match s with
  | String "!"%char s' => (λ e, Glob true (seg_of <$> split "/"%char e)) <$> expand_braces s'
  | _ => (λ e, Glob false (seg_of <$> split "/"%char e)) <$> expand_braces s
  end.

Definition parse_globs (l : list string) : list glob := l ≫= parse_glob.

(** A path (relative to the working directory, as its list of components)
    is selected by a glob list when a positive glob matches it and no
    negated glob does. *)
Definition glob_select (gs : list glob) (path : list string) : bool :=
  existsb (λ g, negb (negated g) && segs_match (segs g) path) gs &&
  forallb (λ g, negb (negated g && segs_match (segs g) path)) gs.


(** ** Module-level state of the build file

    [let DEV_MODE = false; let BASE_HREF = DEV_MODE ? '/' : '/AndroidAssetStudio/';
     let webpackInstance;]
    [webpackInstance] is only tested for being defined, so a flag stands for
    it. *)

Record globals := Globals {
  DEV_MODE : bool;
  BASE_HREF : string;
  webpackInstance : bool
}.

(** The state after the build file has been loaded: the two [let]s are
    evaluated once, in order. *)
Definition load : globals :=
  let dev := false in
  let base := if dev then "/" else "/AndroidAssetStudio/" in
  Globals dev base false.

(** ** The [html] task

    Front-matter attributes are a JavaScript object: a finite map from keys
    to values. *)

#[warnings="-register-all"]
Inductive jsval :=
  | JNull
  | JBool (b : bool)
  | JNum (n : Z)
  | JStr (s : string)
  | JArr (l : list jsval).

(** [{path: file.path, data: file.frontMatter || {}}] *)
Record pageInfo := PageInfo {
  path : list string;
  data : gmap string jsval
}.

(** A value of the render context: a front-matter value, or the [pages]
    array. *)
Inductive cval :=
  | CVal (v : jsval)
  | CPages (ps : list pageInfo).

(** A vinyl file with the two properties the task adds to it.
    [frontMatter = None] is a property left undefined; [contextData] is the
    empty object until the first [tap] assigns it. *)
Record file := File {
  file_path : list string;
  contents : string;
  frontMatter : option (gmap string jsval);
  contextData : gmap string cval
}.

(** The plugins whose results the build file only passes on. *)
Record plugins := Plugins {
  (** gulp-front-matter with [remove: true]: the attributes and the body *)
  front_matter : string → option (gmap string jsval) * string;
  (** gulp-swig: template path, template text and context to rendered text *)
  swig : list string → string → gmap string cval → string;
  (** the condition ['*.html'] of gulp-if on a file *)
  if_html : list string → bool;
  (** gulp-minify-html *)
  minifyHtml : string → string
}.

Definition html_globs : list glob :=
  Eval vm_compute in parse_globs ["app/html/**/*.html"; "!app/html/**/_*.html"].

(** [gulp.src(globs)] over a directory listing, in enumeration order *)
Definition gulp_src (globs : list glob) (fs : list (list string * string)) : list file :=
  (λ e, File e.1 e.2 None ∅) <$> List.filter (λ e, glob_select globs e.1) fs.

(** [$.frontMatter({property: 'frontMatter', remove: true})] *)
Definition frontMatterPlugin (P : plugins) (f : file) : file :=
  let r := front_matter P (contents f) in
  File (file_path f) r.2 r.1 (contextData f).

(** [Object.assign(target, source)]: the keys of [source] win. *)
Definition Object_assign {V} (target source : gmap string V) : gmap string V :=
  source ∪ target.

(** [file.contextData = Object.assign({}, file.frontMatter)] *)
Definition tap_context (f : file) : file :=
  File (file_path f) (contents f) (frontMatter f)
    (Object_assign ∅ (CVal <$> default ∅ (frontMatter f))).

(** The first [forEach] of the [through.obj] handler: one [pages.push] per
    buffered file. *)
Definition push_pages (pages : list pageInfo) (filesArray : list file) : list pageInfo :=
  fold_left
    (λ pages f, pages ++ [PageInfo (file_path f) (default ∅ (frontMatter f))])
    filesArray pages.

(** The handler as a whole: the array is pushed to [pages], then every file
    is emitted again. *)
Definition collect (pages : list pageInfo) (filesArray : list file)
    : list pageInfo * list file :=
  (push_pages pages filesArray, filesArray).

(** [file.contextData = Object.assign(file.contextData, {all_pages: pages})] *)
Definition tap_all_pages (pages : list pageInfo) (f : file) : file :=
  File (file_path f) (contents f) (frontMatter f)
    (Object_assign (contextData f) {[ "all_pages" := CPages pages ]}).

(** [$.swig({data: file => file.contextData})] *)
Definition swigPlugin (P : plugins) (f : file) : file :=
  File (file_path f) (swig P (file_path f) (contents f) (contextData f))
    (frontMatter f) (contextData f).

Definition placeholder : string := "%%BASE_HREF%%".

(** [$.replace(/%%BASE_HREF%%/g, BASE_HREF)] *)
Definition replacePlugin (g : globals) (f : file) : file :=
  File (file_path f) (replace_all placeholder (BASE_HREF g) (contents f))
    (frontMatter f) (contextData f).

(** [$.if('*.html', $.minifyHtml())] *)
Definition minifyPlugin (P : plugins) (f : file) : file :=
  if if_html P (file_path f)
  then File (file_path f) (minifyHtml P (contents f)) (frontMatter f) (contextData f)
  else f.

(** [gulp.dest(dir)]: the file goes to [dir] under its path relative to the
    glob base [app/html]. *)
Definition gulp_dest (dir : string) (f : file) : list string * string :=
  (dir :: drop 2 (file_path f), contents f).

(** The stream up to the second [tap]: [pages] starts empty on every run of
    the task, the buffer hands the whole array to the handler, and the files
    then flow on one by one with the shared [pages]. *)
Definition html_contexts (P : plugins) (fs : list (list string * string)) : list file :=
  let filesArray := tap_context <$> (frontMatterPlugin P <$> gulp_src html_globs fs) in
  let '(pages, emitted) := collect [] filesArray in
  tap_all_pages pages <$> emitted.

(** The files after [$.replace], as they reach [gulp.dest('.tmp')] *)
Definition html_replaced (P : plugins) (g : globals) (fs : list (list string * string))
    : list file :=
  replacePlugin g <$> (swigPlugin P <$> html_contexts P fs).

(** What one run of the task writes: every file to [.tmp], then minified to
    [dist]. *)
Definition html (P : plugins) (g : globals) (fs : list (list string * string))
    : list (list string * string) :=
  html_replaced P g fs ≫= λ f, [gulp_dest ".tmp" f; gulp_dest "dist" (minifyPlugin P f)].

(** ** Running tasks: state, events and outcomes

    The file system is split the way the build file uses it: the source
    tree the tasks read, the two directories [.tmp] and [dist] they write,
    and the store of gulp-cache. *)

Abbreviation tree := (gmap (list string) string).

Record world := World {
  source : tree;
  tmp : tree;
  dist : tree;
  cache : tree
}.

(** What the plugins of one task do in one run: the plugin that raised an
    error, if one did, and the output trees and cache they leave. *)
Record ext_result := ExtResult {
  raised : option string;
  out_tmp : tree;
  out_dist : tree;
  out_cache : tree
}.

Inductive event :=
  | Launch (ts : list string)      (* gulp.start: these tasks start together *)
  | Stop (t : string)              (* task_stop *)
  | TaskErr (t : string)           (* task_err *)
  | ConsoleError (t p : string)    (* errorHandler: console.error(error.stack) *)
  | BrowserSync (port : nat)
  | Reload.                        (* browserSync.reload *)

(** What [gulp.watch(globs, ...)] is given after the globs: an array of
    task names ending in [reload], or [reload] alone. *)
Inductive on_change :=
  | StartThenReload (ts : list string)
  | ReloadNow.

Record watcher := Watcher {
  w_globs : list glob;
  w_action : on_change
}.

Record state := State {
  vars : globals;
  fs : world;
  watchers : list watcher;
  webpack_watch : bool;
  trace : list event
}.

Inductive outcome (A : Type) :=
  | Ok (s : state) (a : A)
  | Err (s : state) (t : string)   (* the task [t] signalled an error *)
  | OutOfFuel.
Arguments Ok {A} s a.
Arguments Err {A} s t.
Arguments OutOfFuel {A}.

Definition M (A : Type) : Type := state → outcome A.

Definition ret {A} (a : A) : M A := λ s, Ok s a.

Definition bind {A B} (m : M A) (k : A → M B) : M B := λ s,
  match m s with
  | Ok s' a => k a s'
  | Err s' t => Err s' t
  | OutOfFuel => OutOfFuel
  end.

Notation "m >> k" := (bind m (λ _, k)) (at level 62, right associativity).

Definition log (e : event) : M unit := λ s,
  Ok (State (vars s) (fs s) (watchers s) (webpack_watch s) (trace s ++ [e])) tt.

Definition set_vars (g : globals) (s : state) : state :=
  State g (fs s) (watchers s) (webpack_watch s) (trace s).

Definition set_fs (w : world) (s : state) : state :=
  State (vars s) w (watchers s) (webpack_watch s) (trace s).

Definition add_event (e : event) (s : state) : state :=
  State (vars s) (fs s) (watchers s) (webpack_watch s) (trace s ++ [e]).

(** How the build file treats an error of a plugin. *)
Inductive on_error :=
  | Throws          (* no listener: the error reaches gulp *)
  | ErrorHandler    (* [.on('error', errorHandler)] *)
  | Ignored.        (* the callback drops [err] and calls [cb()] *)

Definition handling (pipeline : list (string * on_error)) (p : string) : on_error :=
  match List.find (λ e, bool_decide (e.1 = p)) pipeline with
  | Some e => e.2
  | None => Throws
  end.

(** [function errorHandler(error) { console.error(error.stack); this.emit('end'); }] *)
Definition errorHandler (t p : string) : M unit := log (ConsoleError t p).

Record task := Task {
  dep : list string;
  fn : M unit
}.

Inductive sequenced :=
  | Sequence (seq : list string)
  | Missing (name : string)
  | Recursive (nest : list string)
  | SeqFuel.

Record RunResult := mkRunResult {
  succeeded : bool;
  failedStep : option string
}.

(** ** gulp 3 task running, as the build file relies on it

    [gulp.start(names)] orders the named tasks after their declared
    dependencies ([sequencify]), then starts every task whose dependencies
    are done, together; when one task signals an error the run stops after
    the tasks already started have finished. *)

Fixpoint sequencify (n : nat) (tasks : gmap string task)
    (names results nest : list string) : sequenced :=
  match n with
  | O => SeqFuel
  | S n' =>
      (fix each (names results : list string) : sequenced :=
         match names with
         | [] => Sequence results
         | name :: rest =>
             if bool_decide (name ∈ results) then each rest results
             else
               match tasks !! name with
               | None => Missing name
               | Some node =>
                   if bool_decide (name ∈ nest) then Recursive (nest ++ [name])
                   else
                     match sequencify n' tasks (dep node) results (nest ++ [name]) with
                     | Sequence results' => each rest (results' ++ [name])
                     | e => e
                     end
               end
         end) names results
  end.

Definition first_failure (failed : option string) (t : string) : option string :=
  match failed with
  | Some f => Some f
  | None => Some t
  end.

(** The tasks started together, run to completion one after the other in
    the order they were started; a failure does not stop the others. *)
Fixpoint run_wave (tasks : gmap string task) (ready : list string)
    (failed : option string) (s : state) : outcome (option string) :=
  match ready with
  | [] => Ok s failed
  | t :: rest =>
      match tasks !! t with
      | None => Err s t
      | Some node =>
          match fn node s with
          | Ok s' _ => run_wave tasks rest failed (add_event (Stop t) s')
          | Err s' e => run_wave tasks rest (first_failure failed e) (add_event (TaskErr t) s')
          | OutOfFuel => OutOfFuel
          end
      end
  end.

Definition ready_now (tasks : gmap string task) (done : list string) (t : string) : bool :=
  bool_decide (t ∉ done) &&
  match tasks !! t with
  | Some node => forallb (λ d, bool_decide (d ∈ done)) (dep node)
  | None => false
  end.

Fixpoint run_waves (n : nat) (tasks : gmap string task) (seq done : list string)
    (s : state) : outcome unit :=
  match List.filter (λ t, bool_decide (t ∉ done)) seq with
  | [] => Ok s tt
  | _ :: _ =>
      match n with
      | O => OutOfFuel
      | S n' =>
          let ready := List.filter (ready_now tasks done) seq in
          match run_wave tasks ready None (add_event (Launch ready) s) with
          | Ok s' None => run_waves n' tasks seq (done ++ ready) s'
          | Ok s' (Some t) => Err s' t
          | Err s' t => Err s' t
          | OutOfFuel => OutOfFuel
          end
      end
  end.

Definition orchestrate (tasks : gmap string task) (names : list string) : M unit := λ s,
  match sequencify (S (size tasks)) tasks names [] [] with
  | Sequence seq => run_waves (length seq) tasks seq [] s
  | Missing name => Err s name
  | Recursive nest => Err s (default EmptyString (last nest))
  | SeqFuel => OutOfFuel
  end.

(** [runSequence(set1, set2, ..., cb)]: the sets one after the other, each
    through [gulp.start]; the first error ends the sequence. *)
Fixpoint runSequence (start : list string → M unit) (taskSets : list (list string))
    : M unit :=
  match taskSets with
  | [] => ret tt
  | set :: rest => start set >> runSequence start rest
  end.

Definition browserSync (port : nat) : M unit := log (BrowserSync port).

Definition gulp_watch (globs : list string) (a : on_change) : M unit := λ s,
  Ok (State (vars s) (fs s) (watchers s ++ [Watcher (parse_globs globs) a])
        (webpack_watch s) (trace s)) tt.

(** ** The build file *)

Section Gulpfile.

(** The plugins of each task, as a function of the task's name, of the
    two globals task bodies read ([DEV_MODE], [BASE_HREF]) and of the
    file system at the time the task runs. *)
Variable ext : string → bool → string → world → ext_result.

(** A task body made of plugin calls: the plugins run, and an error
    raised by one of them is treated as the pipeline says. *)
Definition external (t : string) (pipeline : list (string * on_error)) : M unit := λ s,
  let r := ext t (DEV_MODE (vars s)) (BASE_HREF (vars s)) (fs s) in
  let s1 := set_fs (World (source (fs s)) (out_tmp r) (out_dist r) (out_cache r)) s in
  match raised r with
  | None => Ok s1 tt
  | Some p =>
      match handling pipeline p with
      | Throws => Err s1 t
      | ErrorHandler => errorHandler t p s1
      | Ignored => Ok s1 tt
      end
  end.

Definition task_webpack : task :=
  Task [] (
    (λ s, Ok (set_vars (Globals (DEV_MODE (vars s)) (BASE_HREF (vars s)) true) s) tt) >>
    external "webpack" [("webpack", Ignored)]).

Definition task_res : task :=
  Task [] (external "res"
    [("src", Throws); ("cache(imagemin)", Throws); ("dest", Throws)]).

Definition task_copy : task :=
  Task [] (external "copy" [("src", Throws); ("dest", Throws)]).

Definition task_styles : task :=
  Task [] (external "styles"
    [("src", Throws); ("changed", Throws); ("sassGlob", Throws);
     ("sass", ErrorHandler); ("autoprefixer", Throws); ("csso", Throws);
     ("tap", Throws); ("dest", Throws)]).

Definition task_html : task :=
  Task [] (external "html"
    [("src", Throws); ("frontMatter", ErrorHandler); ("tap", Throws);
     ("buffer", Throws); ("through", Throws); ("swig", ErrorHandler);
     ("replace", Throws); ("dest", Throws); ("minifyHtml", Throws)]).

(** [del.sync(['.tmp', 'dist']); $.cache.clearAll(); cb();] *)
Definition task_clean : task :=
  Task [] (λ s, Ok (set_fs (World (source (fs s)) ∅ ∅ ∅) s) tt).

(** [DEV_MODE = true; runSequence('__serve__', cb);] *)
Definition task_serve (start : list string → M unit) : task :=
  Task [] (
    (λ s, Ok (set_vars (Globals true (BASE_HREF (vars s)) (webpackInstance (vars s))) s) tt) >>
    runSequence start [["__serve__"]]).

Definition task___serve__ : task :=
  Task ["styles"; "html"; "webpack"] (
    browserSync 3000 >>
    gulp_watch ["app/html/**/*.html"] (StartThenReload ["html"]) >>
    gulp_watch ["app/**/*.{scss,css}"] (StartThenReload ["styles"]) >>
    gulp_watch ["app/res/**/*"] ReloadNow >>
    (λ s, if webpackInstance (vars s)
          then Ok (State (vars s) (fs s) (watchers s) true (trace s)) tt
          else Ok s tt)).

Definition task_serve_dist : task :=
  Task ["default"] (browserSync 3001).

Definition task_service_worker : task :=
  Task [] (external "service-worker" [("injectManifest", Throws)]).

Definition task_default (start : list string → M unit) : task :=
  Task ["clean"] (
    runSequence start
      [["styles"]; ["webpack"; "html"; "res"; "copy"]; ["service-worker"]]).

Definition task_deploy : task :=
  Task [] (external "deploy" [("src", Throws); ("ghPages", Throws)]).

(** The table [gulp.task] fills, in the order of the file. *)
Definition gulpfile (start : list string → M unit) : gmap string task :=
  list_to_map
    [("webpack", task_webpack); ("res", task_res); ("copy", task_copy);
     ("styles", task_styles); ("html", task_html); ("clean", task_clean);
     ("serve", task_serve start); ("__serve__", task___serve__);
     ("serve:dist", task_serve_dist); ("service-worker", task_service_worker);
     ("default", task_default start); ("deploy", task_deploy)].

(** [gulp.start]; the fuel bounds how deep task bodies call it again. *)
Fixpoint start (fuel : nat) (names : list string) : M unit :=
  match fuel with
  | O => λ _, OutOfFuel
  | S n => orchestrate (gulpfile (start n)) names
  end.

(** One run of a target from the command line. *)
Definition runTarget (fuel : nat) (target : string) (s : state)
    : option (state * RunResult) :=
  match start fuel [target] s with
  | Ok s' _ => Some (s', mkRunResult true None)
  | Err s' t => Some (s', mkRunResult false (Some t))
  | OutOfFuel => None
  end.

(** *** The watch loop *)

(** A watcher fires: the named tasks run and [reload] is their completion
    callback, called when the run ends, with or without an error; a
    watcher given [reload] alone calls it at once. *)
Definition fire (fuel : nat) (w : watcher) : M unit := λ s,
  match w_action w with
  | ReloadNow => log Reload s
  | StartThenReload ts =>
      match start fuel ts s with
      | Ok s' _ => log Reload s'
      | Err s' _ => log Reload s'
      | OutOfFuel => OutOfFuel
      end
  end.

Fixpoint fire_all (fuel : nat) (ws : list watcher) : M unit :=
  match ws with
  | [] => ret tt
  | w :: rest => fire fuel w >> fire_all fuel rest
  end.

Inductive input :=
  | Changed (p : list string)   (* a file under a watched glob changed *)
  | Rebuilt.                    (* webpack's own watcher rebuilt the bundle *)

Definition watch_step (fuel : nat) (i : input) : M unit := λ s,
  match i with
  | Changed p =>
      fire_all fuel (List.filter (λ w, glob_select (w_globs w) p) (watchers s)) s
  | Rebuilt => if webpack_watch s then log Reload s else Ok s tt
  end.

End Gulpfile.

(** ** The dependency resolver of the design

    The build file has no resolver of its own: it hands the declared
    dependencies to gulp.  The design describes one, and the properties on
    cyclic graphs are about it. *)

Module Resolver.

Inductive color :=
  | Gray                 (* in progress *)
  | Black (stage : nat). (* finished, with its stage *)

Inductive resolve_error :=
  | CyclicDependencyError (cycle : list string)
  | UnknownDependencyError (name : string).

Inductive visited :=
  | Visited (marks : gmap string color) (stage : nat)
  | Failed (e : resolve_error)
  | Exhausted.

Inductive resolved :=
  | BuildGraph (stages : list (list string))
  | Fails (e : resolve_error)
  | NoFuel.

(** The part of the in-progress path that closes the cycle at [name]:
    from the earlier visit of [name] to the step that asks for it again. *)
Fixpoint cycle_from (name : string) (path : list string) : list string :=
  match path with
  | [] => [name]
  | x :: rest =>
      if bool_decide (x = name) then x :: rest ++ [name]
      else cycle_from name rest
  end.

(** The dependencies of one step, left to right; [acc] is the stage of
    the step as far as it is known: one more than the largest stage of a
    dependency seen, 0 when there is none. *)
Fixpoint visit_deps (v : string → gmap string color → visited)
    (deps : list string) (marks : gmap string color) (acc : nat) : visited :=
  match deps with
  | [] => Visited marks acc
  | d :: rest =>
      match v d marks with
      | Visited marks' j => visit_deps v rest marks' (acc `max` S j)
      | other => other
      end
  end.

(** Modelled from the spec: the depth-first traversal of
    DependencyResolver, absent from the build file.  A finished step is
    not visited again; a step met while in progress closes a cycle; a
    name that was never registered is an unknown dependency; otherwise
    the step is marked in progress, its dependencies are visited, and it
    is finished with stage [1 + max] of theirs, 0 without dependencies. *)
Fixpoint visit (fuel : nat) (reg : gmap string (list string))
    (path : list string) (name : string) (marks : gmap string color) : visited :=
  match fuel with
  | O => Exhausted
  | S fuel' =>
      match marks !! name with
      | Some (Black k) => Visited marks k
      | Some Gray => Failed (CyclicDependencyError (cycle_from name path))
      | None =>
          match reg !! name with
          | None => Failed (UnknownDependencyError name)
          | Some deps =>
              match visit_deps (visit fuel' reg (path ++ [name])) deps
                      (<[name := Gray]> marks) 0 with
              | Visited marks' k => Visited (<[name := Black k]> marks') k
              | other => other
              end
          end
      end
  end.

Definition stage_names (marks : gmap string color) (k : nat) : list string :=
  map_to_list marks ≫= λ e,
    match e.2 with
    | Black j => if bool_decide (j = k) then [e.1] else []
    | Gray => []
    end.

Definition depth (marks : gmap string color) : nat :=
  map_fold (λ _ c acc, match c with Black j => acc `max` S j | Gray => acc end) 0 marks.

(** Modelled from the spec: [resolve(targetNames)] of DependencyResolver,
    absent from the build file.  The targets are visited in order from
    the empty marking; the build graph lists, stage by stage, the steps
    finished with that stage. *)
Definition resolve (reg : gmap string (list string)) (targets : list string) : resolved :=
  match visit_deps (visit (S (size reg)) reg []) targets ∅ 0 with
  | Visited marks _ => BuildGraph (stage_names marks <$> seq 0 (depth marks))
  | Failed e => Fails e
  | Exhausted => NoFuel
  end.

(** [a] declares [b] as a dependency. *)
Definition edge (reg : gmap string (list string)) (a b : string) : Prop :=
  ∃ deps, reg !! a = Some deps ∧ b ∈ deps.

(** [b] is reached from [a] along declared dependencies. *)
Definition reaches (reg : gmap string (list string)) : relation string :=
  rtc (edge reg).

(** [a] transitively depends on [b]. *)
Definition depends_on (reg : gmap string (list string)) : relation string :=
  tc (edge reg).

Definition reachable (reg : gmap string (list string)) (targets : list string)
    (n : string) : Prop :=
  ∃ t, t ∈ targets ∧ reaches reg t n.

(** Consecutive names of the list are joined by dependency edges. *)
Fixpoint chain (reg : gmap string (list string)) (l : list string) : Prop :=
  match l with
  | a :: (b :: _) as rest => edge reg a b ∧ chain reg rest
  | _ => True
  end.

(** A list names a cycle when it starts and ends with the same step and
    follows dependency edges in between. *)
Definition names_cycle (reg : gmap string (list string)) (c : list string) : Prop :=
  ∃ x mid, c = x :: mid ++ [x] ∧ chain reg c.

(** Every finished step is registered and its dependencies are finished
    with a smaller stage. *)
Definition black_closed (reg : gmap string (list string))
    (marks : gmap string color) : Prop :=
  ∀ n k, marks !! n = Some (Black k) →
    ∃ deps, reg !! n = Some deps ∧
      ∀ d, d ∈ deps → ∃ j, marks !! d = Some (Black j) ∧ j < k.

(** A later marking keeps what is finished and has the same steps in
    progress. *)
Definition extends (marks marks' : gmap string color) : Prop :=
  (∀ n k, marks !! n = Some (Black k) → marks' !! n = Some (Black k)) ∧
  (∀ n, marks !! n = Some Gray ↔ marks' !! n = Some Gray).

(** What a traversal step may return: a marking that extends the one it
    got, a cycle of the registry, or a reachable name that is not
    registered; it does not run out of fuel. *)
Definition sound (reg : gmap string (list string)) (R : string → Prop)
    (marks : gmap string color) (r : visited)
    (ok : gmap string color → nat → Prop) : Prop :=
  match r with
  | Visited marks' k => black_closed reg marks' ∧ extends marks marks' ∧ ok marks' k
  | Failed (CyclicDependencyError c) => names_cycle reg c
  | Failed (UnknownDependencyError n) => R n ∧ reg !! n = None
  | Exhausted => False
  end.

End Resolver.

(** ** Reading a trace *)

(** The task sets handed to [gulp.start], in order. *)
Definition launched (tr : list event) : list (list string) :=
  omap (λ e, match e with Launch ts => Some ts | _ => None end) tr.

(** Whether an error shows in the trace: a task error, or an error caught
    by [errorHandler]. *)
Definition run_failed (tr : list event) : bool :=
  existsb (λ e, match e with TaskErr _ | ConsoleError _ _ => true | _ => false end) tr.

(** The sets the default target starts when nothing fails. *)
Definition default_stages : list (list string) :=
  [["clean"]; ["default"]; ["styles"]; ["webpack"; "html"; "res"; "copy"];
   ["service-worker"]].

(** The watchers [__serve__] registers, in the order of the file. *)
Definition serve_watchers : list watcher :=
  Eval vm_compute in
  [Watcher (parse_globs ["app/html/**/*.html"]) (StartThenReload ["html"]);
   Watcher (parse_globs ["app/**/*.{scss,css}"]) (StartThenReload ["styles"]);
   Watcher (parse_globs ["app/res/**/*"]) ReloadNow].

Definition styles_watch_globs : list glob :=
  Eval vm_compute in parse_globs ["app/**/*.{scss,css}"].

Definition html_watch_globs : list glob :=
  Eval vm_compute in parse_globs ["app/html/**/*.html"].

Definition res_watch_globs : list glob :=
  Eval vm_compute in parse_globs ["app/res/**/*"].

(** The state right after the build file is loaded. *)
Definition init (w : world) : state := State load w [] false [].

(** The states the process can be in: after loading, after any run of any
    target, after any watch event, and after the files were edited. *)
Inductive reachable (ext : string → bool → string → world → ext_result) : state → Prop :=
  | reach_init w : reachable ext (init w)
  | reach_run fuel names s s' :
      reachable ext s → start ext fuel names s = Ok s' tt → reachable ext s'
  | reach_run_err fuel names s s' t :
      reachable ext s → start ext fuel names s = Err s' t → reachable ext s'
  | reach_watch fuel i s s' :
      reachable ext s → watch_step ext fuel i s = Ok s' tt → reachable ext s'
  | reach_edit s w :
      reachable ext s → reachable ext (set_fs w s).

(** ** The selection and the pages of the [html] task, spelled out *)

(** A path under [app/html] through directories that do not start with a
    dot, to a name that ends with [.html] and starts neither with a dot nor
    with an underscore. *)
Definition html_input (path : list string) : Prop :=
  ∃ dirs name, path = "app" :: "html" :: dirs ++ [name] ∧
    Forall (λ d, is_dot d = false) dirs ∧
    is_dot name = false ∧ starts_with "_" name = false ∧ ends_with ".html" name.

(** The entries of a listing that the task reads. *)
Definition html_inputs (fs : list (list string * string)) : list (list string * string) :=
  List.filter (λ e, glob_select html_globs e.1) fs.

(** The page record of one input file. *)
Definition page_of (P : plugins) (e : list string * string) : pageInfo :=
  PageInfo e.1 (default ∅ (front_matter P e.2).1).

(** ** What a task body made of plugin calls does to the state *)

(** The body ends normally or signals an error of its own task; it adds
    nothing to the trace but errors caught by [errorHandler]; it leaves
    [DEV_MODE], [BASE_HREF], the source tree and the watchers alone. *)
Definition leaf_body (t : string) (m : M unit) : Prop :=
  ∀ s, ∃ s' evs,
    (m s = Ok s' tt ∨ m s = Err s' t) ∧
    trace s' = trace s ++ evs ∧
    Forall (λ e, ∃ p, e = ConsoleError t p) evs ∧
    DEV_MODE (vars s') = DEV_MODE (vars s) ∧
    BASE_HREF (vars s') = BASE_HREF (vars s) ∧
    source (fs s') = source (fs s) ∧
    watchers s' = watchers s ∧
    webpack_watch s' = webpack_watch s.

(** Two states that a plugin cannot tell apart: the same [DEV_MODE] and
    [BASE_HREF], the same file system. *)
Definition same_inputs (s1 s2 : state) : Prop :=
  DEV_MODE (vars s1) = DEV_MODE (vars s2) ∧
  BASE_HREF (vars s1) = BASE_HREF (vars s2) ∧
  fs s1 = fs s2.

(** Two outcomes of the same kind, with states the plugins cannot tell
    apart. *)
Definition same_outcome {A} (o1 o2 : outcome A) : Prop :=
  match o1, o2 with
  | Ok s1 a1, Ok s2 a2 => same_inputs s1 s2 ∧ a1 = a2
  | Err s1 t1, Err s2 t2 => same_inputs s1 s2 ∧ t1 = t2
  | OutOfFuel, OutOfFuel => True
  | _, _ => False
  end.

(** A computation that only looks at what the plugins look at. *)
Definition blind {A} (m : M A) : Prop :=
  ∀ s1 s2, same_inputs s1 s2 → same_outcome (m s1) (m s2).

(** What no task body made of plugin calls changes. *)
Definition kept (s s' : state) : Prop :=
  DEV_MODE (vars s') = DEV_MODE (vars s) ∧
  BASE_HREF (vars s') = BASE_HREF (vars s) ∧
  source (fs s') = source (fs s) ∧
  watchers s' = watchers s ∧
  webpack_watch s' = webpack_watch s.

(** The task sets of the build file whose tasks are plugin calls without
    dependencies. *)
Definition leaf_sets : list (list string) :=
  [["styles"]; ["webpack"; "html"; "res"; "copy"]; ["service-worker"]; ["html"]].

(** The state in which the body of [default] starts: [clean] has run. *)
Definition after_clean (s : state) : state :=
  add_event (Launch ["default"])
    (add_event (Stop "clean")
       (set_fs (World (source (fs s)) ∅ ∅ ∅) (add_event (Launch ["clean"]) s))).

(** A computation that leaves [BASE_HREF] as it found it, however it
    ends. *)
Definition keeps_base {A} (m : M A) : Prop :=
  ∀ s,
    match m s with
    | Ok s' _ | Err s' _ => BASE_HREF (vars s') = BASE_HREF (vars s)
    | OutOfFuel => True
    end.

(** ** More of the build file, spelled out *)

(** The state the body of [__serve__] leaves: browser-sync on port 3000,
    the three watchers registered after those already there, webpack's own
    watcher on when [webpackInstance] is defined. *)
Definition after_serve_body (s : state) : state :=
  State (vars s) (fs s) (watchers s ++ serve_watchers)
    (if webpackInstance (vars s) then true else webpack_watch s)
    (trace s ++ [BrowserSync 3000]).

(** The state the body of [serve:dist] leaves, and the task stopped. *)
Definition after_serve_dist (s : state) : state :=
  add_event (Stop "serve:dist")
    (add_event (BrowserSync 3001) (add_event (Launch ["serve:dist"]) s)).

(** The plugin errors the build file catches with [errorHandler], and the
    task whose callback drops its error. *)
Definition caught (t p : string) : bool :=
  bool_decide (t = "styles" ∧ p = "sass") ||
  bool_decide (t = "html" ∧ p = "frontMatter") ||
  bool_decide (t = "html" ∧ p = "swig") ||
  bool_decide (t = "webpack" ∧ p = "webpack").

(** Plugins that raise no other errors than those. *)
Definition only_caught (ext : string → bool → string → world → ext_result) : Prop :=
  ∀ t dev base w p, raised (ext t dev base w) = Some p → caught t p = true.

(** A computation whose final state is related to its initial state by
    [Q], however it ends. *)
Definition keeps (Q : state → state → Prop) {A} (m : M A) : Prop :=
  ∀ s,
    match m s with
    | Ok s' _ | Err s' _ => Q s s'
    | OutOfFuel => True
    end.

(** Development mode, once on, is on. *)
Definition dev_sticks (s s' : state) : Prop :=
  DEV_MODE (vars s) = true → DEV_MODE (vars s') = true.

(** The events a task body made of plugin calls, or a wave of such tasks,
    can add to the trace. *)
Definition leaf_event (e : event) : Prop :=
  match e with
  | Stop _ | TaskErr _ | ConsoleError _ _ => True
  | _ => False
  end.

(** The browser-sync servers started, by port, in order. *)
Definition servers (tr : list event) : list nat :=
  omap (λ e, match e with BrowserSync port => Some port | _ => None end) tr.

(** A path under [app] through directories that do not start with a dot,
    to a name that does not start with a dot and ends with [.scss] or
    [.css]. *)
Definition stylesheet_path (path : list string) : Prop :=
  ∃ dirs name, path = "app" :: dirs ++ [name] ∧
    Forall (λ d, is_dot d = false) dirs ∧
    is_dot name = false ∧
    (ends_with ".scss" name ∨ ends_with ".css" name).

(** ** Globs with the [dot] option

    [copy] and [deploy] pass [{dot: true}] to [gulp.src]: [*] and the
    globstar then match names that start with a dot as well.  Without the
    option these are [seg_match] and [segs_match]. *)

Definition seg_match_opt (dot : bool) (p : list gatom) (s : string) : bool :=
  (dot || negb (is_dot s) || pat_dot p) && wild p s.

Fixpoint segs_match_opt (dot : bool) (ps : list gseg) (path : list string)
    {struct ps} : bool :=
  match ps with
  | [] => match path with [] => true | _ => false end
  | Seg p :: ps' =>
      match path with
      | [] => false
      | s :: path' => seg_match_opt dot p s && segs_match_opt dot ps' path'
      end
  | GlobStar :: ps' =>
      (fix descend (path : list string) : bool :=
         segs_match_opt dot ps' path ||
         match path with
         | [] => false
         | s :: path' => (dot || negb (is_dot s)) && descend path'
         end) path
  end.

Definition glob_select_opt (dot : bool) (gs : list glob) (path : list string) : bool :=
  existsb (λ g, negb (negated g) && segs_match_opt dot (segs g) path) gs &&
  forallb (λ g, negb (negated g && segs_match_opt dot (segs g) path)) gs.

(** The base of a glob: its leading segments without a wildcard, the last
    segment never counted.  [gulp.dest(dir)] writes a file at [dir] joined
    with its path relative to the base of the glob that selected it. *)
Definition is_literal (g : gseg) : bool :=
  match g with
  | GlobStar => false
  | Seg p => forallb (λ a, match a with GChar _ => true | GStar => false end) p
  end.

Fixpoint glob_parent (gs : list gseg) : nat :=
  match gs with
  | [] => 0
  | g :: gs' =>
      match gs' with
      | [] => 0
      | _ => if is_literal g then S (glob_parent gs') else 0
      end
  end.

Definition dest_path (dir : list string) (pattern : string) (path : list string)
    : list string :=
  dir ++ drop (glob_parent (seg_of <$> split "/"%char pattern)) path.

(** ** The [copy] task

    [merge(gulp.src(['app/*', '!app/sw-prod.js'], {dot: true, nodir: true})
             .pipe(gulp.dest('dist')),
           gulp.src('older-version/**/*', {dot: true})
             .pipe(gulp.dest('dist/older-version')))]
    Paths are paths of files, so [nodir] has nothing to remove.  The result
    lists where the file at [path] is written. *)

Definition copy_root_globs : list glob :=
  Eval vm_compute in parse_globs ["app/*"; "!app/sw-prod.js"].

Definition copy_older_globs : list glob :=
  Eval vm_compute in parse_globs ["older-version/**/*"].

Definition copy_dest (path : list string) : list (list string) :=
  (if glob_select_opt true copy_root_globs path
   then [dest_path ["dist"] "app/*" path] else []) ++
  (if glob_select_opt true copy_older_globs path
   then [dest_path ["dist"; "older-version"] "older-version/**/*" path] else []).

(** ** The files [service-worker] asks to precache

    [globDirectory: 'dist', globIgnores: ['older-version/**/*'],
     globPatterns: ['*.html', '**/*.svg', '**/*.js', '**/*.css']]
    A path is relative to [dist].  The patterns are matched without the
    [dot] option; ignore patterns are matched with it. *)

Definition precache_patterns : list glob :=
  Eval vm_compute in parse_globs ["*.html"; "**/*.svg"; "**/*.js"; "**/*.css"].

Definition precache_ignores : list glob :=
  Eval vm_compute in parse_globs ["older-version/**/*"].

Definition precache_select (rel : list string) : bool :=
  existsb (λ g, segs_match_opt false (segs g) rel) precache_patterns &&
  negb (existsb (λ g, segs_match_opt true (segs g) rel) precache_ignores).

(** What the options of [service-worker] select, said on the path. *)
Definition precache_input (rel : list string) : Prop :=
  ∃ dirs name, rel = dirs ++ [name] ∧
    Forall (λ d, is_dot d = false) dirs ∧
    is_dot name = false ∧
    hd_error dirs ≠ Some "older-version" ∧
    (dirs = [] ∧ ends_with ".html" name ∨
     ends_with ".svg" name ∨ ends_with ".js" name ∨ ends_with ".css" name).

(** ** The rename in [styles]

    [s.replace(/suffix$/, rep)] for a literal suffix: the pattern is
    anchored at the end of the string, so it matches at most once, where
    what is left of the string is the suffix. *)

Fixpoint replace_end (suffix rep s : string) : string :=
  if String.eqb s suffix then rep
  else match s with
       | EmptyString => EmptyString
       | String c s' => String c (replace_end suffix rep s')
       end.

(** [file.path = file.path.replace(/\.entry\.css$/, '.css')] *)
Definition styles_rename (path : string) : string :=
  replace_end ".entry.css" ".css" path.

(** ** Fixtures *)

(** Plugins that never raise and leave the trees as they are. *)
Definition quiet (t : string) (dev : bool) (base : string) (w : world) : ext_result :=
  ExtResult None (tmp w) (dist w) (cache w).

(** Sass fails to compile; everything else is quiet. *)
Definition sass_fails (t : string) (dev : bool) (base : string) (w : world) : ext_result :=
  ExtResult (if bool_decide (t = "styles") then Some "sass" else None)
    (tmp w) (dist w) (cache w).

(** The stylesheet cannot be written: an error no handler catches. *)
Definition dest_fails (t : string) (dev : bool) (base : string) (w : world) : ext_result :=
  ExtResult (if bool_decide (t = "styles") then Some "dest" else None)
    (tmp w) (dist w) (cache w).

Definition empty_world : world := World ∅ ∅ ∅ ∅.

(** A stand-in front-matter parser: the text before the first [|] is the
    title, the rest is the body. *)
Definition toy_front_matter (c : string) : option (gmap string jsval) * string :=
  match split "|"%char c with
  | [t; body] => (Some {[ "title" := JStr t ]}, body)
  | _ => (None, c)
  end.

Definition toy_plugins : plugins :=
  Plugins toy_front_matter (λ _ c _, c) (λ _, true) (λ c, c).

(** The state in which [gulp serve] leaves the process when no plugin
    raises: development mode, watchers registered. *)
Definition serve_state : state :=
  match start quiet 3 ["serve"] (init empty_world) with
  | Ok s _ => s
  | _ => init empty_world
  end.

(** Registries for the resolver: a cycle behind the target [a]; a cycle
    that [a] does not reach; a cycle next to a name never registered. *)
Definition cyclic_registry : gmap string (list string) :=
  list_to_map [("a", ["b"]); ("b", ["c"; "d"]); ("c", ["b"]); ("d", [])].

Definition detached_cycle_registry : gmap string (list string) :=
  list_to_map [("a", []); ("b", ["c"]); ("c", ["b"])].

Definition unknown_first_registry : gmap string (list string) :=
  list_to_map [("a", ["zz"; "b"]); ("b", ["a"])].

(** * Properties *)

(** ** Text *)

Lemma app_cons (c : ascii) (u v : string) : String c u +:+ v = String c (u +:+ v).
Proof. reflexivity. Qed.

Lemma app_empty (v : string) : EmptyString +:+ v = v.
Proof. reflexivity. Qed.

Lemma app_assoc_s (u v w : string) : (u +:+ v) +:+ w = u +:+ v +:+ w.
Proof. induction u as [|c u IH]; [done|]. by rewrite !app_cons, IH. Qed.

Lemma starts_with_app (t s : string) : starts_with t (t +:+ s) = true.
Proof.
  induction t as [|c t IH]; [done|].
  rewrite app_cons. simpl. rewrite bool_decide_true by done. exact IH.
Qed.

Lemma starts_with_split (t s : string) :
  starts_with t s = true → ∃ r, s = t +:+ r.
Proof.
  revert s. induction t as [|c t IH]; intros s H.
  - by exists s.
  - destruct s as [|d s]; [done|]. simpl in H.
    apply andb_prop in H as [Hc Hs]. apply bool_decide_eq_true in Hc as ->.
    destruct (IH _ Hs) as [r ->]. by exists r.
Qed.

Lemma contains_skip (t u s : string) :
  (∀ c t', t = String c t' → has_char c u = false) →
  contains t (u +:+ s) = contains t s.
Proof.
  intros Hfirst. induction u as [|d u IH] in Hfirst |- *; [done|].
  rewrite app_cons.
  destruct t as [|c t'].
  - simpl. by destruct s.
  - specialize (Hfirst c t' eq_refl). simpl in Hfirst.
    apply orb_false_elim in Hfirst as [Hcd Hu].
    cbn [contains starts_with]. rewrite Hcd. simpl.
    apply IH. intros c0 t0 [= <- <-]. exact Hu.
Qed.

(** Skipping the [k] characters of a matched token. *)
Lemma replace_go_skip (tok rep u s : string) :
  replace_go tok rep (String.length u) (u +:+ s) = replace_go tok rep 0 s.
Proof.
  induction u as [|c u IH]; [|exact IH].
  simpl. rewrite app_empty. done.
Qed.

Lemma replace_all_token (tok rep s : string) :
  tok ≠ EmptyString →
  replace_all tok rep (tok +:+ s) = rep +:+ replace_all tok rep s.
Proof.
  intros Hne. destruct tok as [|c tok']; [done|].
  unfold replace_all. rewrite app_cons.
  cbn [replace_go]. rewrite <- app_cons, starts_with_app.
  f_equal.
  replace (String.length (String c tok') - 1) with (String.length tok')
    by (cbn [String.length]; lia).
  apply replace_go_skip.
Qed.

Lemma replace_all_keep (tok rep : string) (c : ascii) (s : string) :
  starts_with tok (String c s) = false →
  replace_all tok rep (String c s) = String c (replace_all tok rep s).
Proof. intros H. unfold replace_all. cbn [replace_go]. by rewrite H. Qed.

Lemma replace_all_absent (tok rep s : string) :
  contains tok s = false → replace_all tok rep s = s.
Proof.
  induction s as [|c s IH]; [done|]. intros H.
  cbn [contains] in H. apply orb_false_elim in H as [H1 H2].
  rewrite replace_all_keep by done. by rewrite IH.
Qed.

Section Replace.

Variables (t0 r0 : ascii) (tok' rep' : string).
Let tok := String t0 tok'.
Let rep := String r0 rep'.

(** The replacement starts with a character the token does not have,
    and has nowhere the character the token starts with. *)
Hypothesis rep_head_fresh : has_char r0 tok = false.
Hypothesis tok_head_fresh : has_char t0 rep = false.

Lemma replace_prefix_back (t s : string) :
  has_char r0 t = false →
  starts_with t (replace_all tok rep s) = true → starts_with t s = true.
Proof.
  revert s. induction t as [|a t IH]; intros s Ht H; [done|].
  simpl in Ht. apply orb_false_elim in Ht as [Ha Ht].
  destruct s as [|c s]; [done|].
  destruct (starts_with tok (String c s)) eqn:Hm.
  - apply starts_with_split in Hm as [r Hr]. rewrite Hr in H.
    rewrite replace_all_token in H by done.
    unfold rep in H. rewrite app_cons in H. simpl in H.
    apply andb_prop in H as [H _].
    apply bool_decide_eq_true in H as ->.
    by rewrite bool_decide_true in Ha.
  - rewrite replace_all_keep in H by done. simpl in H. simpl.
    apply andb_prop in H as [-> H]. simpl. by apply IH.
Qed.

Lemma replace_go_clean (k : nat) (s : string) :
  contains tok (replace_go tok rep k s) = false.
Proof.
  revert k. induction s as [|c s IH]; intros k; [by destruct k|].
  destruct k as [|k]; [|apply IH].
  cbn [replace_go].
  destruct (starts_with tok (String c s)) eqn:Hm.
  - rewrite contains_skip; [apply IH|].
    intros c0 t' [= <- <-]. exact tok_head_fresh.
  - cbn [contains]. rewrite (IH 0), orb_false_r.
    destruct (starts_with tok (String c (replace_go tok rep 0 s))) eqn:Hs; [|done].
    exfalso. unfold tok in Hs, Hm. simpl in Hs, Hm.
    apply andb_prop in Hs as [Hc Hs]. rewrite Hc in Hm. simpl in Hm.
    apply replace_prefix_back in Hs; [congruence|].
    unfold tok in rep_head_fresh. simpl in rep_head_fresh.
    by apply orb_false_elim in rep_head_fresh as [_ ?].
Qed.

End Replace.

Lemma replace_all_around (t0 : ascii) (tok' rep x y : string) :
  has_char t0 x = false →
  replace_all (String t0 tok') rep (x +:+ String t0 tok' +:+ y) =
  x +:+ rep +:+ replace_all (String t0 tok') rep y.
Proof.
  intros Hx. induction x as [|c x IH].
  - rewrite !app_empty. by apply replace_all_token.
  - simpl in Hx. apply orb_false_elim in Hx as [Hc Hx].
    rewrite !(app_cons c x), replace_all_keep.
    + by rewrite IH.
    + simpl. by rewrite Hc.
Qed.

(** ** Globs *)

Lemma wild_star (p : list gatom) (s : string) :
  wild (GStar :: p) s =
  wild p s || match s with EmptyString => false | String _ s' => wild (GStar :: p) s' end.
Proof. by destruct s. Qed.

Lemma wild_star_iff (p : list gatom) (s : string) :
  wild (GStar :: p) s = true ↔ ∃ a b, s = a +:+ b ∧ wild p b = true.
Proof.
  split.
  - induction s as [|c s IH]; rewrite wild_star; intros H.
    + rewrite orb_false_r in H. by exists EmptyString, EmptyString.
    + apply orb_prop in H as [H|H].
      * by exists EmptyString, (String c s).
      * destruct (IH H) as (a & b & -> & Hb). by exists (String c a), b.
  - intros (a & b & -> & Hb). induction a as [|c a IH]; rewrite wild_star.
    + rewrite app_empty, Hb. done.
    + rewrite app_cons, IH. apply orb_true_r.
Qed.

Lemma wild_literal (u s : string) :
  has_char "*" u = false → wild (atoms_of u) s = true ↔ s = u.
Proof.
  revert s. induction u as [|c u IH]; intros s Hu.
  - simpl. by destruct s.
  - simpl in Hu. apply orb_false_elim in Hu as [Hc Hu].
    assert (bool_decide (c = "*"%char) = false) as Hc'.
    { apply bool_decide_eq_false. intros ->. by rewrite bool_decide_true in Hc. }
    simpl. rewrite Hc'. destruct s as [|d s]; [done|].
    rewrite andb_true_iff, bool_decide_eq_true, IH by done.
    split; [by intros [-> ->]|by intros [= -> ->]].
Qed.

(** [*.ext]: any name that ends with [.ext]. *)
Lemma wild_suffix (u s : string) :
  has_char "*" u = false →
  wild (GStar :: atoms_of u) s = true ↔ ends_with u s.
Proof.
  intros Hu. rewrite wild_star_iff. unfold ends_with. split.
  - intros (a & b & -> & Hb). apply wild_literal in Hb as ->; eauto.
  - intros [x ->]. exists x, u. split; [done|]. by apply wild_literal.
Qed.

Lemma segs_match_globstar (ps : list gseg) (path : list string) :
  segs_match (GlobStar :: ps) path =
  segs_match ps path ||
  match path with
  | [] => false
  | s :: path' => negb (is_dot s) && segs_match (GlobStar :: ps) path'
  end.
Proof. by destruct path. Qed.

(** [**/name-pattern]: directories that do not start with a dot, then one
    name the pattern matches. *)
Lemma segs_match_globstar_last (p : list gatom) (path : list string) :
  segs_match [GlobStar; Seg p] path = true ↔
  ∃ dirs name, path = dirs ++ [name] ∧ Forall (λ d, is_dot d = false) dirs ∧
    seg_match p name = true.
Proof.
  split.
  - induction path as [|s path IH]; rewrite segs_match_globstar; intros H.
    + done.
    + apply orb_prop in H as [H|H].
      * simpl in H. apply andb_prop in H as [Hs Hp].
        destruct path; [|done]. by exists [], s.
      * apply andb_prop in H as [Hs H]. apply negb_true_iff in Hs.
        destruct (IH H) as (dirs & name & -> & Hd & Hn).
        exists (s :: dirs), name. by repeat split; [constructor|].
  - intros (dirs & name & -> & Hd & Hn).
    induction Hd as [|d dirs Hdot Hd IH]; rewrite segs_match_globstar.
    + simpl. by rewrite Hn.
    + change ((d :: dirs) ++ [name]) with (d :: (dirs ++ [name])). cbv iota.
      rewrite IH, Hdot. apply orb_true_r.
Qed.

Lemma seg_match_literal (u s : string) :
  has_char "*" u = false → is_dot u = false →
  seg_match (atoms_of u) s = true ↔ s = u.
Proof.
  intros Hu Hd. unfold seg_match. rewrite andb_true_iff, wild_literal by done.
  split; [by intros [_ ?]|]. intros ->. by rewrite Hd.
Qed.

Lemma seg_match_same (u : string) :
  has_char "*" u = false → is_dot u = false → seg_match (atoms_of u) u = true.
Proof. intros. by apply seg_match_literal. Qed.

Lemma ends_with_not_head (u s : string) (a b : ascii) :
  a ≠ b → ends_with (String b u) (String a s) →
  ∃ s', s = s' +:+ String b u.
Proof.
  intros Hab [x Hx]. destruct x as [|c x].
  - rewrite app_empty in Hx. congruence.
  - rewrite app_cons in Hx. injection Hx as -> ->. by exists x.
Qed.

Lemma last_string_neq (x y : string) (a b : ascii) :
  a ≠ b → x +:+ String a EmptyString ≠ y +:+ String b EmptyString.
Proof.
  revert y. induction x as [|c x IH]; intros [|d y] Hab H;
    rewrite ?app_cons, ?app_empty in H.
  - congruence.
  - injection H as _ H. by destruct y.
  - injection H as _ H. by destruct x.
  - injection H as _ H. by eapply IH.
Qed.

Lemma ends_with_last (u s : string) (a : ascii) :
  ends_with (u +:+ String a EmptyString) s → ∃ x, s = x +:+ String a EmptyString.
Proof. intros [x ->]. exists (x +:+ u). by rewrite app_assoc_s. Qed.

Lemma html_positive (path : list string) :
  segs_match (seg_of <$> ["app"; "html"; "**"; "*.html"]) path = true ↔
  ∃ dirs name, path = "app" :: "html" :: dirs ++ [name] ∧
    Forall (λ d, is_dot d = false) dirs ∧
    is_dot name = false ∧ ends_with ".html" name.
Proof.
  change (seg_of <$> ["app"; "html"; "**"; "*.html"])
    with [Seg (atoms_of "app"); Seg (atoms_of "html"); GlobStar;
          Seg (GStar :: atoms_of ".html")].
  split.
  - intros H. destruct path as [|a [|b rest]]; try done.
    + simpl in H. by rewrite andb_false_r in H.
    + cbn [segs_match] in H.
      apply andb_prop in H as [Ha H]. apply andb_prop in H as [Hb H].
      apply seg_match_literal in Ha as ->; [|done..].
      apply seg_match_literal in Hb as ->; [|done..].
      apply segs_match_globstar_last in H as (dirs & name & -> & Hd & Hn).
      exists dirs, name. unfold seg_match in Hn.
      apply andb_prop in Hn as [Hdot Hw]. simpl in Hdot.
      rewrite orb_false_r in Hdot. apply negb_true_iff in Hdot.
      by apply (wild_suffix ".html") in Hw.
  - intros (dirs & name & -> & Hd & Hdot & He).
    cbn [segs_match]. rewrite !seg_match_same by done.
    simpl andb. apply segs_match_globstar_last. exists dirs, name.
    repeat split; [done|]. unfold seg_match. rewrite Hdot. cbn [negb orb andb].
    by apply (wild_suffix ".html").
Qed.

Lemma html_negative (path : list string) :
  segs_match (seg_of <$> ["app"; "html"; "**"; "_*.html"]) path = true ↔
  ∃ dirs name, path = "app" :: "html" :: dirs ++ [name] ∧
    Forall (λ d, is_dot d = false) dirs ∧
    starts_with "_" name = true ∧ ends_with ".html" name.
Proof.
  change (seg_of <$> ["app"; "html"; "**"; "_*.html"])
    with [Seg (atoms_of "app"); Seg (atoms_of "html"); GlobStar;
          Seg (GChar "_" :: GStar :: atoms_of ".html")].
  split.
  - intros H. destruct path as [|a [|b rest]]; try done.
    + simpl in H. by rewrite andb_false_r in H.
    + cbn [segs_match] in H.
      apply andb_prop in H as [Ha H]. apply andb_prop in H as [Hb H].
      apply seg_match_literal in Ha as ->; [|done..].
      apply seg_match_literal in Hb as ->; [|done..].
      apply segs_match_globstar_last in H as (dirs & name & -> & Hd & Hn).
      exists dirs, name. unfold seg_match in Hn.
      apply andb_prop in Hn as [_ Hw].
      destruct name as [|c name]; [done|].
      cbn [wild] in Hw. apply andb_prop in Hw as [Hc Hw].
      apply bool_decide_eq_true in Hc as <-.
      apply (wild_suffix ".html") in Hw as [x ->]; [|done].
      repeat split; [done|]. exists (String "_" x). by rewrite app_cons.
  - intros (dirs & name & -> & Hd & Hu & He).
    cbn [segs_match]. rewrite !seg_match_same by done.
    simpl andb. apply segs_match_globstar_last. exists dirs, name.
    repeat split; [done|].
    destruct name as [|c name]; [done|]. simpl in Hu.
    rewrite andb_true_r in Hu. apply bool_decide_eq_true in Hu as <-.
    unfold seg_match. apply andb_true_intro. split; [done|].
    change (wild (GStar :: atoms_of ".html") name = true).
    apply (wild_suffix ".html"); [done|].
    by apply (ends_with_not_head _ _ "_"%char "."%char) in He.
Qed.

Lemma html_globs_select (path : list string) :
  glob_select html_globs path = true ↔ html_input path.
Proof.
  unfold glob_select, html_globs. cbn [existsb forallb negated segs negb andb orb].
  rewrite !andb_true_r, orb_false_r.
  change (segs_match _ path && negb (segs_match _ path)) with
    (segs_match (seg_of <$> ["app"; "html"; "**"; "*.html"]) path &&
     negb (segs_match (seg_of <$> ["app"; "html"; "**"; "_*.html"]) path)).
  rewrite andb_true_iff, negb_true_iff, html_positive. unfold html_input. split.
  - intros [(dirs & name & -> & Hd & Hdot & He) Hneg].
    exists dirs, name. repeat split; try done.
    destruct (starts_with "_" name) eqn:Hu; [|done].
    rewrite <- Hneg. symmetry. apply html_negative. by exists dirs, name.
  - intros (dirs & name & -> & Hd & Hdot & Hu & He). split.
    + by exists dirs, name.
    + apply not_true_is_false. intros Hneg.
      apply html_negative in Hneg as (dirs' & name' & Heq & _ & Hu' & _).
      injection Heq as Heq. apply app_inj_tail in Heq as [_ <-]. congruence.
Qed.

(** ** The [html] task *)

Lemma push_pages_app (pages : list pageInfo) (filesArray : list file) :
  push_pages pages filesArray =
  pages ++ ((λ f, PageInfo (file_path f) (default ∅ (frontMatter f))) <$> filesArray).
Proof.
  unfold push_pages. revert pages.
  induction filesArray as [|f fa IH]; intros pages; simpl.
  - by rewrite app_nil_r.
  - rewrite IH. by rewrite <- app_assoc.
Qed.

Lemma Object_assign_fresh {V} (source : gmap string V) :
  Object_assign ∅ source = source.
Proof. unfold Object_assign. apply map_union_empty. Qed.

Lemma Object_assign_key {V} (target : gmap string V) (k : string) (v : V) :
  Object_assign target {[ k := v ]} = <[k := v]> target.
Proof. unfold Object_assign. by rewrite insert_union_singleton_l. Qed.

Lemma gulp_src_inputs (fs : list (list string * string)) :
  gulp_src html_globs fs = (λ e, File e.1 e.2 None ∅) <$> html_inputs fs.
Proof. reflexivity. Qed.

(** The files handed to swig, one per input, each with its own front
    matter and the pages of all inputs. *)
Lemma html_contexts_eq (P : plugins) (fs : list (list string * string)) :
  html_contexts P fs =
  (λ e, File e.1 (front_matter P e.2).2 (front_matter P e.2).1
          (<["all_pages" := CPages (page_of P <$> html_inputs fs)]>
             (CVal <$> default ∅ (front_matter P e.2).1))) <$> html_inputs fs.
Proof.
  unfold html_contexts, collect. rewrite gulp_src_inputs, push_pages_app.
  rewrite <- !list_fmap_compose. simpl app.
  apply list_fmap_ext. intros i e _. unfold compose, tap_all_pages, tap_context,
    frontMatterPlugin. simpl.
  rewrite Object_assign_fresh, Object_assign_key. done.
Qed.


(** The two pages of the example: [a.html] with title A and [b.html] with
    title B; the context of either lists both, in reading order. *)
Example all_pages_two_files :
  (λ f, (file_path f, contextData f !! "all_pages")) <$>
    html_contexts toy_plugins
      [(["app"; "html"; "a.html"], "A|<h1>a</h1>");
       (["app"; "html"; "b.html"], "B|<h1>b</h1>")] =
  let pages :=
    [PageInfo ["app"; "html"; "a.html"] {[ "title" := JStr "A" ]};
     PageInfo ["app"; "html"; "b.html"] {[ "title" := JStr "B" ]}] in
  [(["app"; "html"; "a.html"], Some (CPages pages));
   (["app"; "html"; "b.html"], Some (CPages pages))].
Proof. vm_compute. reflexivity. Qed.

Lemma placeholder_gone (text : string) :
  contains placeholder (replace_all placeholder (BASE_HREF load) text) = false.
Proof.
  apply (replace_go_clean "%"%char "/"%char "%BASE_HREF%%" "AndroidAssetStudio/");
    reflexivity.
Qed.

Lemma html_writes (P : plugins) (g : globals) (fs : list (list string * string)) :
  html P g fs =
    (swigPlugin P <$> html_contexts P fs) ≫= (λ f,
      let out := replace_all placeholder (BASE_HREF g) (contents f) in
      [(".tmp" :: drop 2 (file_path f), out);
       ("dist" :: drop 2 (file_path f),
        if if_html P (file_path f) then minifyHtml P out else out)]).
Proof.
  unfold html, html_replaced. rewrite list_fmap_bind.
  apply list_bind_ext; [|done]. intros f. unfold compose, gulp_dest, minifyPlugin.
  simpl. by destruct (if_html P (file_path f)).
Qed.


Example placeholder_example :
  replace_all placeholder (BASE_HREF load)
    "<base href=%%BASE_HREF%%><a href=%%BASE_HREF%%icons.html>" =
  "<base href=/AndroidAssetStudio/><a href=/AndroidAssetStudio/icons.html>".
Proof. reflexivity. Qed.

Lemma html_paths (P : plugins) (fs : list (list string * string)) :
  file_path <$> html_contexts P fs = (html_inputs fs).*1.
Proof.
  rewrite html_contexts_eq, <- list_fmap_compose. by apply list_fmap_ext.
Qed.



(** ** Running tasks *)

Lemma launched_app (a b : list event) : launched (a ++ b) = launched a ++ launched b.
Proof. apply omap_app. Qed.

Lemma launched_console (t : string) (evs : list event) :
  Forall (λ e, ∃ p, e = ConsoleError t p) evs → launched evs = [].
Proof. induction 1 as [|e evs [p ->] _ IH]; [done|]. exact IH. Qed.

Lemma console_no_err (t : string) (evs : list event) (A : string) :
  Forall (λ e, ∃ p, e = ConsoleError t p) evs → TaskErr A ∉ evs.
Proof.
  intros H Hin. apply (proj1 (Forall_forall _ _) H) in Hin as [p Hp]. done.
Qed.

Lemma filter_none {A} (f : A → bool) (l : list A) :
  (∀ x, In x l → f x = false) → List.filter f l = [].
Proof.
  induction l as [|a l IH]; intros H; [done|]. simpl.
  rewrite (H a) by by left. apply IH. intros x Hx. apply H. by right.
Qed.

Lemma run_wave_cons (tasks : gmap string task) (t : string) (rest : list string)
    (failed : option string) (s : state) (node : task) :
  tasks !! t = Some node →
  run_wave tasks (t :: rest) failed s =
  match fn node s with
  | Ok s' _ => run_wave tasks rest failed (add_event (Stop t) s')
  | Err s' e => run_wave tasks rest (first_failure failed e) (add_event (TaskErr t) s')
  | OutOfFuel => OutOfFuel
  end.
Proof. intros H. cbn [run_wave]. by rewrite H. Qed.

Lemma run_waves_step (n : nat) (tasks : gmap string task) (seq done : list string)
    (s : state) (ready : list string) :
  List.filter (λ t, bool_decide (t ∉ done)) seq ≠ [] →
  List.filter (ready_now tasks done) seq = ready →
  run_waves (S n) tasks seq done s =
  match run_wave tasks ready None (add_event (Launch ready) s) with
  | Ok s' None => run_waves n tasks seq (done ++ ready) s'
  | Ok s' (Some t) => Err s' t
  | Err s' t => Err s' t
  | OutOfFuel => OutOfFuel
  end.
Proof.
  intros Hp <-. cbn [run_waves].
  by destruct (List.filter (λ t, bool_decide (t ∉ done)) seq).
Qed.

Lemma run_waves_done (n : nat) (tasks : gmap string task) (seq done : list string)
    (s : state) :
  List.filter (λ t, bool_decide (t ∉ done)) seq = [] →
  run_waves n tasks seq done s = Ok s tt.
Proof. intros H. destruct n; cbn [run_waves]; by rewrite H. Qed.

(** A set of tasks without dependencies whose bodies are plugin calls: all
    of them run, the trace gains no [gulp.start], an error in the trace is
    the error of one of them, and the wave reports a failure exactly when
    the trace shows one. *)
Lemma run_wave_leaves (tasks : gmap string task) (ts : list string) :
  Forall (λ t, ∃ node, tasks !! t = Some node ∧ leaf_body t (fn node)) ts →
  ∀ failed s, ∃ s' evs failed',
    run_wave tasks ts failed s = Ok s' failed' ∧
    trace s' = trace s ++ evs ∧
    launched evs = [] ∧
    (∀ A, TaskErr A ∈ evs → A ∈ ts) ∧
    (failed' = None → failed = None ∧ ∀ A, TaskErr A ∉ evs) ∧
    (∀ t, failed' = Some t → failed = Some t ∨ (t ∈ ts ∧ TaskErr t ∈ evs)) ∧
    ((∀ A, TaskErr A ∉ evs) → failed' = failed) ∧
    DEV_MODE (vars s') = DEV_MODE (vars s) ∧
    BASE_HREF (vars s') = BASE_HREF (vars s) ∧
    source (fs s') = source (fs s) ∧
    watchers s' = watchers s ∧
    webpack_watch s' = webpack_watch s.
Proof.
  induction 1 as [|t ts (node & Hl & Hleaf) _ IH]; intros failed s.
  - exists s, [], failed. cbn [run_wave]. rewrite app_nil_r.
    repeat split; try done; try (intros A HA; by apply elem_of_nil in HA).
    intros t ->. by left.
  - rewrite (run_wave_cons _ _ _ _ _ _ Hl).
    destruct (Hleaf s) as (s1 & evs1 & Hres & Htr1 & Hev1 & Hd1 & Hb1 & Hs1 & Hw1 & Hq1).
    destruct Hres as [-> | ->].
    + destruct (IH failed (add_event (Stop t) s1))
        as (s' & evs & failed' & -> & Htr & Hla & Herr & Hnone & Hsome & Hsame
              & Hd & Hb & Hs & Hw & Hq).
      exists s', (evs1 ++ Stop t :: evs), failed'.
      simpl in Htr, Hd, Hb, Hs, Hw, Hq.
      repeat split.
      * rewrite Htr, Htr1. by rewrite <- !app_assoc.
      * rewrite launched_app, (launched_console t) by done. exact Hla.
      * intros A [HA|HA]%elem_of_app.
        -- by apply (console_no_err t) in HA.
        -- apply elem_of_cons in HA as [HA|HA]; [done|]. right. by apply Herr.
      * by apply Hnone.
      * intros A [HA|HA]%elem_of_app.
        -- by apply (console_no_err t) in HA.
        -- apply elem_of_cons in HA as [HA|HA]; [done|].
           revert HA. by apply Hnone.
      * intros x Hx. destruct (Hsome x Hx) as [?|[? ?]]; [by left|right].
        split; [by right|]. apply elem_of_app. right. by right.
      * intros Hno. apply Hsame. intros A HA. apply (Hno A).
        apply elem_of_app. right. by right.
      * congruence.
      * congruence.
      * congruence.
      * congruence.
      * congruence.
    + destruct (IH (first_failure failed t) (add_event (TaskErr t) s1))
        as (s' & evs & failed' & -> & Htr & Hla & Herr & Hnone & Hsome & Hsame
              & Hd & Hb & Hs & Hw & Hq).
      exists s', (evs1 ++ TaskErr t :: evs), failed'.
      simpl in Htr, Hd, Hb, Hs, Hw, Hq.
      repeat split.
      * rewrite Htr, Htr1. by rewrite <- !app_assoc.
      * rewrite launched_app, (launched_console t) by done. exact Hla.
      * intros A [HA|HA]%elem_of_app.
        -- by apply (console_no_err t) in HA.
        -- apply elem_of_cons in HA as [[= ->]|HA]; [by left|]. right. by apply Herr.
      * match goal with H : failed' = None |- _ => destruct (Hnone H) as [Hff _] end.
        by destruct failed.
      * match goal with H : failed' = None |- _ => destruct (Hnone H) as [Hff _] end.
        by destruct failed.
      * intros x Hx. destruct (Hsome x Hx) as [Hx'|[? ?]].
        -- destruct failed as [f|]; simpl in Hx'; [by left|].
           injection Hx' as <-. right. split; [by left|].
           apply elem_of_app. right. by left.
        -- right. split; [by right|]. apply elem_of_app. right. by right.
      * intros Hno. exfalso. apply (Hno t). apply elem_of_app. right. by left.
      * congruence.
      * congruence.
      * congruence.
      * congruence.
      * congruence.
Qed.

Section Running.

Variable ext : string → bool → string → world → ext_result.

Lemma external_leaf (t : string) (pipeline : list (string * on_error)) :
  leaf_body t (external ext t pipeline).
Proof.
  intros s. unfold external.
  destruct (raised _) as [p|].
  - destruct (handling pipeline p).
    + eexists _, []. split; [by right|]. rewrite app_nil_r. by repeat split.
    + eexists _, [ConsoleError t p]. split; [by left|].
      repeat split; try done. constructor; [by exists p|done].
    + eexists _, []. split; [by left|]. rewrite app_nil_r. by repeat split.
  - eexists _, []. split; [by left|]. rewrite app_nil_r. by repeat split.
Qed.

Lemma webpack_leaf : leaf_body "webpack" (fn (task_webpack ext)).
Proof.
  intros s. unfold task_webpack, fn, bind.
  destruct (external_leaf "webpack" [("webpack", Ignored)]
              (set_vars (Globals (DEV_MODE (vars s)) (BASE_HREF (vars s)) true) s))
    as (s' & evs & Hres & Htr & Hev & Hd & Hb & Hs & Hw & Hq).
  exists s', evs. by repeat split.
Qed.

(** When no plugin raises, a body of plugin calls ends normally and adds
    nothing to the trace. *)
Lemma external_quiet (t : string) (pipeline : list (string * on_error)) (s : state) :
  raised (ext t (DEV_MODE (vars s)) (BASE_HREF (vars s)) (fs s)) = None →
  ∃ s', external ext t pipeline s = Ok s' tt ∧ trace s' = trace s ∧ vars s' = vars s.
Proof. intros H. unfold external. rewrite H. by eexists. Qed.

Lemma gulpfile_leaves (st : list string → M unit) :
  Forall (λ t, ∃ node, gulpfile ext st !! t = Some node ∧ leaf_body t (fn node))
    ["webpack"; "html"; "res"; "copy"; "styles"; "service-worker"].
Proof.
  repeat constructor.
  - exists (task_webpack ext). split; [reflexivity|apply webpack_leaf].
  - exists (task_html ext). split; [reflexivity|apply external_leaf].
  - exists (task_res ext). split; [reflexivity|apply external_leaf].
  - exists (task_copy ext). split; [reflexivity|apply external_leaf].
  - exists (task_styles ext). split; [reflexivity|apply external_leaf].
  - exists (task_service_worker ext). split; [reflexivity|apply external_leaf].
Qed.

Lemma gulpfile_leaf (st : list string → M unit) (t : string) :
  t ∈ ["webpack"; "html"; "res"; "copy"; "styles"; "service-worker"] →
  ∃ node, gulpfile ext st !! t = Some node ∧ leaf_body t (fn node).
Proof. intros H. by apply (proj1 (Forall_forall _ _) (gulpfile_leaves st)). Qed.

(** [gulp.start] on a set of tasks of the build file that have no
    dependencies and are all different is one wave. *)
Lemma orchestrate_set (st : list string → M unit) (ts : list string) (s : state) :
  sequencify (S (size (gulpfile ext st))) (gulpfile ext st) ts [] [] = Sequence ts →
  ts ≠ [] →
  List.filter (ready_now (gulpfile ext st) []) ts = ts →
  orchestrate (gulpfile ext st) ts s =
  match run_wave (gulpfile ext st) ts None (add_event (Launch ts) s) with
  | Ok s' None => Ok s' tt
  | Ok s' (Some t) => Err s' t
  | Err s' t => Err s' t
  | OutOfFuel => OutOfFuel
  end.
Proof.
  intros Hseq Hne Hready. unfold orchestrate. rewrite Hseq.
  destruct ts as [|t ts]; [done|]. cbn [length].
  rewrite (run_waves_step _ _ _ _ _ (t :: ts)); [|by vm_compute|done].
  destruct (run_wave _ _ _ _) as [s' [f|]| |]; try done.
  apply run_waves_done. rewrite app_nil_l.
  apply filter_none. intros x Hx. apply list_elem_of_In in Hx.
  apply bool_decide_eq_false. by intros ?.
Qed.

(** One of the leaf sets of the build file, started: the set is launched,
    every task of it runs, and the start fails exactly when the trace shows
    the error of one of its tasks. *)
Lemma start_leaves (fuel : nat) (ts : list string) (s : state) :
  ts ∈ leaf_sets →
  ∃ s' evs,
    trace s' = trace s ++ Launch ts :: evs ∧
    launched evs = [] ∧
    kept s s' ∧
    ((start ext (S fuel) ts s = Ok s' tt ∧ ∀ A, TaskErr A ∉ evs) ∨
     (∃ t, start ext (S fuel) ts s = Err s' t ∧ t ∈ ts ∧ TaskErr t ∈ evs ∧
           ∀ A, TaskErr A ∈ evs → A ∈ ts)).
Proof.
  intros Hts. cbn [start].
  assert (Forall (λ t, ∃ node, gulpfile ext (start ext fuel) !! t = Some node ∧
                    leaf_body t (fn node)) ts ∧
          sequencify (S (size (gulpfile ext (start ext fuel))))
            (gulpfile ext (start ext fuel)) ts [] [] = Sequence ts ∧
          ts ≠ [] ∧
          List.filter (ready_now (gulpfile ext (start ext fuel)) []) ts = ts)
    as (Hleaves & Hseq & Hne & Hready).
  { unfold leaf_sets in Hts.
    repeat (apply elem_of_cons in Hts as [->|Hts]);
      [..|by apply elem_of_nil in Hts];
      (split; [|split; [by vm_compute|split; [done|by vm_compute]]]);
      apply Forall_forall; intros t Ht; apply gulpfile_leaf;
      repeat (apply elem_of_cons in Ht as [->|Ht]);
      try (by apply elem_of_nil in Ht);
      apply (bool_decide_unpack _); by vm_compute. }
  rewrite orchestrate_set by done.
  destruct (run_wave_leaves _ _ Hleaves None (add_event (Launch ts) s))
    as (s' & evs & failed' & -> & Htr & Hla & Herr & Hnone & Hsome & _
          & Hd & Hb & Hs & Hw & Hq).
  exists s', evs. simpl in Htr, Hd, Hb, Hs, Hw, Hq.
  split; [by rewrite Htr, <- app_assoc|]. split; [done|]. split; [done|].
  destruct failed' as [t|].
  - right. exists t. destruct (Hsome t eq_refl) as [?|[? ?]]; [done|]. by repeat split.
  - left. split; [done|]. by apply Hnone.
Qed.

Lemma orchestrate_default (st : list string → M unit) (s : state) :
  orchestrate (gulpfile ext st) ["default"] s =
  match runSequence st
          [["styles"]; ["webpack"; "html"; "res"; "copy"]; ["service-worker"]]
          (after_clean s) with
  | Ok s' _ => Ok (add_event (Stop "default") s') tt
  | Err s' e => Err (add_event (TaskErr "default") s') e
  | OutOfFuel => OutOfFuel
  end.
Proof.
  unfold orchestrate.
  replace (sequencify _ _ _ _ _) with (Sequence ["clean"; "default"])
    by by vm_compute.
  cbn [length].
  rewrite (run_waves_step _ _ _ _ _ ["clean"]); [|by vm_compute..].
  rewrite (run_wave_cons _ _ _ _ _ (task_clean)); [|reflexivity].
  cbn [fn task_clean run_wave].
  rewrite (run_waves_step _ _ _ _ _ ["default"]); [|by vm_compute..].
  rewrite (run_wave_cons _ _ _ _ _ (task_default st)); [|reflexivity].
  cbn [fn task_default]. fold (after_clean s).
  by destruct (runSequence _ _ _) as [s' []|s' e|].
Qed.

Lemma trace_after_clean (s : state) :
  trace (after_clean s) =
  trace s ++ [Launch ["clean"]; Stop "clean"; Launch ["default"]].
Proof. unfold after_clean. simpl. by rewrite <- !app_assoc. Qed.

Lemma kept_after_clean (s s' : state) :
  kept (after_clean s) s' →
  DEV_MODE (vars s') = DEV_MODE (vars s) ∧
  BASE_HREF (vars s') = BASE_HREF (vars s) ∧
  source (fs s') = source (fs s).
Proof. intros (? & ? & ? & _). by repeat split. Qed.

Lemma kept_trans (s1 s2 s3 : state) : kept s1 s2 → kept s2 s3 → kept s1 s3.
Proof.
  intros (? & ? & ? & ? & ?) (? & ? & ? & ? & ?). repeat split; congruence.
Qed.

(** The run of the default target, in full: the sets are started in the
    order of [default_stages]; the run ends normally after all five, or it
    ends with the error of a task of the last set it started. *)
Lemma default_run (fuel : nat) (s : state) :
  ∃ s' tr,
    trace s' = trace s ++ tr ∧
    (DEV_MODE (vars s') = DEV_MODE (vars s) ∧
     BASE_HREF (vars s') = BASE_HREF (vars s) ∧
     source (fs s') = source (fs s)) ∧
    ((start ext (S (S fuel)) ["default"] s = Ok s' tt ∧
      launched tr = default_stages ∧ ∀ A, TaskErr A ∉ tr) ∨
     (∃ i stage t,
        start ext (S (S fuel)) ["default"] s = Err s' t ∧
        default_stages !! i = Some stage ∧
        launched tr = take (S i) default_stages ∧
        t ∈ stage ∧ TaskErr t ∈ tr ∧
        ∀ A, TaskErr A ∈ tr → A = "default" ∨ A ∈ stage)).
Proof.
  change (start ext (S (S fuel)) ["default"] s)
    with (orchestrate (gulpfile ext (start ext (S fuel))) ["default"] s).
  rewrite orchestrate_default. cbn [runSequence]. unfold bind, ret.
  destruct (start_leaves fuel ["styles"] (after_clean s))
    as (s1 & evs1 & Htr1 & Hla1 & Hk1 & Hres1); [by vm_compute; left|].
  rewrite trace_after_clean in Htr1.
  destruct Hres1 as [[-> Hno1] | (t & -> & Ht & Hin & Hall)]; cycle 1.
  { exists (add_event (TaskErr "default") s1),
      ([Launch ["clean"]; Stop "clean"; Launch ["default"]; Launch ["styles"]]
         ++ evs1 ++ [TaskErr "default"]).
    split; [simpl; rewrite Htr1; by rewrite <- !app_assoc|].
    split; [by apply kept_after_clean|].
    right. exists 2, ["styles"], t. repeat split; try done.
    - rewrite !launched_app, Hla1. done.
    - set_solver.
    - set_solver. }
  destruct (start_leaves fuel ["webpack"; "html"; "res"; "copy"] s1)
    as (s2 & evs2 & Htr2 & Hla2 & Hk2 & Hres2); [by vm_compute; right; left|].
  destruct Hres2 as [[-> Hno2] | (t & -> & Ht & Hin & Hall)]; cycle 1.
  { exists (add_event (TaskErr "default") s2),
      ([Launch ["clean"]; Stop "clean"; Launch ["default"]; Launch ["styles"]]
         ++ evs1 ++ Launch ["webpack"; "html"; "res"; "copy"] :: evs2
         ++ [TaskErr "default"]).
    split; [simpl; rewrite Htr2, Htr1; by rewrite <- !app_assoc|].
    split; [by eapply kept_after_clean, kept_trans|].
    right. exists 3, ["webpack"; "html"; "res"; "copy"], t. repeat split; try done.
    - rewrite !launched_app, Hla1. simpl. rewrite launched_app, Hla2. done.
    - set_solver.
    - set_solver. }
  destruct (start_leaves fuel ["service-worker"] s2)
    as (s3 & evs3 & Htr3 & Hla3 & Hk3 & Hres3); [by vm_compute; right; right; left|].
  destruct Hres3 as [[-> Hno3] | (t & -> & Ht & Hin & Hall)]; cycle 1.
  { exists (add_event (TaskErr "default") s3),
      ([Launch ["clean"]; Stop "clean"; Launch ["default"]; Launch ["styles"]]
         ++ evs1 ++ Launch ["webpack"; "html"; "res"; "copy"] :: evs2
         ++ Launch ["service-worker"] :: evs3 ++ [TaskErr "default"]).
    split; [simpl; rewrite Htr3, Htr2, Htr1; by rewrite <- !app_assoc|].
    split; [by eapply kept_after_clean, kept_trans, kept_trans|].
    right. exists 4, ["service-worker"], t. repeat split; try done.
    - rewrite !launched_app, Hla1. simpl. rewrite launched_app, Hla2. simpl.
      rewrite launched_app, Hla3. done.
    - set_solver.
    - set_solver. }
  exists (add_event (Stop "default") s3),
    ([Launch ["clean"]; Stop "clean"; Launch ["default"]; Launch ["styles"]]
       ++ evs1 ++ Launch ["webpack"; "html"; "res"; "copy"] :: evs2
       ++ Launch ["service-worker"] :: evs3 ++ [Stop "default"]).
  split; [simpl; rewrite Htr3, Htr2, Htr1; by rewrite <- !app_assoc|].
  split; [by eapply kept_after_clean, kept_trans, kept_trans|].
  left. repeat split.
  - rewrite !launched_app, Hla1. simpl. rewrite launched_app, Hla2. simpl.
    rewrite launched_app, Hla3. done.
  - set_solver.
Qed.

(** *** When no plugin raises *)

Hypothesis no_error : ∀ t dev base w, raised (ext t dev base w) = None.

Lemma quiet_leaf (st : list string → M unit) (t : string) :
  t ∈ ["webpack"; "html"; "res"; "copy"; "styles"; "service-worker"] →
  ∃ node, gulpfile ext st !! t = Some node ∧
    ∀ s, ∃ s', fn node s = Ok s' tt ∧ trace s' = trace s.
Proof.
  intros Ht.
  repeat (apply elem_of_cons in Ht as [->|Ht]); [..|by apply elem_of_nil in Ht];
    (eexists; split; [reflexivity|]); intros s; cbn [snd fn task_webpack task_html
      task_res task_copy task_styles task_service_worker]; unfold bind.
  1: destruct (external_quiet "webpack" [("webpack", Ignored)]
                 (set_vars (Globals (DEV_MODE (vars s)) (BASE_HREF (vars s)) true) s))
       as (s' & -> & Htr & _); [apply no_error|by exists s'].
  all: match goal with
       | |- ∃ s', external ext ?t ?pl ?s0 = _ ∧ _ =>
           destruct (external_quiet t pl s0) as (s' & -> & Htr & _);
             [apply no_error|by exists s']
       end.
Qed.

Lemma quiet_wave (st : list string → M unit) (ts : list string) (s : state) :
  ts ⊆ ["webpack"; "html"; "res"; "copy"; "styles"; "service-worker"] →
  ∃ s', run_wave (gulpfile ext st) ts None s = Ok s' None ∧
    trace s' = trace s ++ (Stop <$> ts).
Proof.
  revert s. induction ts as [|t ts IH]; intros s Hsub.
  - exists s. by rewrite app_nil_r.
  - destruct (quiet_leaf st t) as (node & Hl & Hrun); [apply Hsub; by left|].
    rewrite (run_wave_cons _ _ _ _ _ _ Hl).
    destruct (Hrun s) as (s1 & -> & Htr1).
    destruct (IH (add_event (Stop t) s1)) as (s' & -> & Htr).
    { intros x Hx. apply Hsub. by right. }
    exists s'. split; [done|]. rewrite Htr. simpl. rewrite Htr1.
    by rewrite <- app_assoc.
Qed.

Lemma quiet_start (fuel : nat) (ts : list string) (s : state) :
  ts ∈ leaf_sets →
  ∃ s', start ext (S fuel) ts s = Ok s' tt ∧
    trace s' = trace s ++ Launch ts :: (Stop <$> ts).
Proof.
  intros Hts. cbn [start].
  assert (ts ⊆ ["webpack"; "html"; "res"; "copy"; "styles"; "service-worker"] ∧
          sequencify (S (size (gulpfile ext (start ext fuel))))
            (gulpfile ext (start ext fuel)) ts [] [] = Sequence ts ∧
          ts ≠ [] ∧
          List.filter (ready_now (gulpfile ext (start ext fuel)) []) ts = ts)
    as (Hsub & Hseq & Hne & Hready).
  { unfold leaf_sets in Hts.
    repeat (apply elem_of_cons in Hts as [->|Hts]);
      [..|by apply elem_of_nil in Hts];
      (split; [|split; [by vm_compute|split; [done|by vm_compute]]]);
      intros t Ht;
      repeat (apply elem_of_cons in Ht as [->|Ht]);
      try (by apply elem_of_nil in Ht);
      apply (bool_decide_unpack _); by vm_compute. }
  rewrite orchestrate_set by done.
  destruct (quiet_wave (start ext fuel) ts (add_event (Launch ts) s) Hsub)
    as (s' & -> & Htr).
  exists s'. split; [done|]. rewrite Htr. simpl. by rewrite <- app_assoc.
Qed.


End Running.



(** The stylesheet cannot be written: [styles] fails, and neither the
    second stage nor [service-worker] is started. *)
Example fail_fast_styles :
  ∃ s', start dest_fails 2 ["default"] (init empty_world) = Err s' "styles" ∧
    trace s' =
      [Launch ["clean"]; Stop "clean"; Launch ["default"]; Launch ["styles"];
       TaskErr "styles"; TaskErr "default"].
Proof. eexists. split; by vm_compute. Qed.

(** ** [BASE_HREF] is never assigned *)

Lemma keeps_base_ret {A} (a : A) : keeps_base (ret a).
Proof. by intros s. Qed.

Lemma keeps_base_bind {A B} (m : M A) (k : A → M B) :
  keeps_base m → (∀ a, keeps_base (k a)) → keeps_base (bind m k).
Proof.
  intros Hm Hk s. unfold bind. specialize (Hm s).
  destruct (m s) as [s1 a|s1 t|]; [|done..].
  specialize (Hk a s1). destruct (k a s1); [congruence..|done].
Qed.

Lemma keeps_base_log (e : event) : keeps_base (log e).
Proof. by intros s. Qed.

Lemma keeps_base_watch (globs : list string) (a : on_change) :
  keeps_base (gulp_watch globs a).
Proof. by intros s. Qed.

Lemma keeps_base_external (ext : string → bool → string → world → ext_result)
    (t : string) (pipeline : list (string * on_error)) :
  keeps_base (external ext t pipeline).
Proof.
  intros s. unfold external. destruct (raised _) as [p|]; [|done].
  by destruct (handling pipeline p).
Qed.

Lemma keeps_base_runSequence (st : list string → M unit) (sets : list (list string)) :
  (∀ names, keeps_base (st names)) → keeps_base (runSequence st sets).
Proof.
  intros Hst. induction sets as [|set sets IH]; cbn [runSequence].
  - apply keeps_base_ret.
  - apply keeps_base_bind; [apply Hst|done].
Qed.

Lemma keeps_base_run_wave (tasks : gmap string task) (ts : list string)
    (failed : option string) :
  map_Forall (λ _ node, keeps_base (fn node)) tasks →
  keeps_base (run_wave tasks ts failed).
Proof.
  intros Htasks. revert failed. induction ts as [|t ts IH]; intros failed s.
  - done.
  - cbn [run_wave]. destruct (tasks !! t) as [node|] eqn:Hl; [|done].
    specialize (Htasks t node Hl s). simpl in Htasks.
    destruct (fn node s) as [s1 []|s1 e|]; [..|done].
    + specialize (IH failed (add_event (Stop t) s1)).
      destruct (run_wave _ _ _ _); simpl in IH; [congruence..|done].
    + specialize (IH (first_failure failed e) (add_event (TaskErr t) s1)).
      destruct (run_wave _ _ _ _); simpl in IH; [congruence..|done].
Qed.

Lemma keeps_base_run_waves (n : nat) (tasks : gmap string task) (seq done : list string) :
  map_Forall (λ _ node, keeps_base (fn node)) tasks →
  keeps_base (run_waves n tasks seq done).
Proof.
  intros Htasks. revert done. induction n as [|n IH]; intros done s; cbn [run_waves].
  - by destruct (List.filter _ seq).
  - destruct (List.filter _ seq); [done|].
    pose proof (keeps_base_run_wave tasks (List.filter (ready_now tasks done) seq)
                  None Htasks (add_event (Launch (List.filter (ready_now tasks done) seq)) s))
      as Hw.
    destruct (run_wave _ _ _ _) as [s1 [t|]|s1 t|]; simpl in Hw; [done|..|done|done].
    specialize (IH (done ++ List.filter (ready_now tasks done) seq) s1).
    destruct (run_waves _ _ _ _ _); [congruence..|done].
Qed.

Lemma keeps_base_orchestrate (tasks : gmap string task) (names : list string) :
  map_Forall (λ _ node, keeps_base (fn node)) tasks →
  keeps_base (orchestrate tasks names).
Proof.
  intros Htasks s. unfold orchestrate.
  destruct (sequencify _ _ _ _ _); [|done..].
  apply (keeps_base_run_waves _ _ _ _ Htasks).
Qed.

Lemma keeps_base_gulpfile (ext : string → bool → string → world → ext_result)
    (st : list string → M unit) :
  (∀ names, keeps_base (st names)) →
  map_Forall (λ _ node, keeps_base (fn node)) (gulpfile ext st).
Proof.
  intros Hst. unfold gulpfile. rewrite !list_to_map_cons, list_to_map_nil.
  repeat (apply map_Forall_insert_2; [|]); [..|apply map_Forall_empty];
    cbn [fn task_webpack task_res task_copy task_styles task_html task_clean
           task_serve task___serve__ task_serve_dist task_service_worker
           task_default task_deploy browserSync];
    repeat first
      [ apply keeps_base_external
      | apply keeps_base_runSequence; [exact Hst]
      | apply keeps_base_log
      | apply keeps_base_watch
      | apply keeps_base_bind; [|intros _] ];
    try (intros s; simpl; done).
  intros s. by destruct (webpackInstance (vars s)).
Qed.

Lemma keeps_base_start (ext : string → bool → string → world → ext_result)
    (fuel : nat) (names : list string) :
  keeps_base (start ext fuel names).
Proof.
  revert names. induction fuel as [|fuel IH]; intros names; [done|].
  cbn [start]. apply keeps_base_orchestrate, keeps_base_gulpfile, IH.
Qed.

Lemma keeps_base_fire_all (ext : string → bool → string → world → ext_result)
    (fuel : nat) (ws : list watcher) :
  keeps_base (fire_all ext fuel ws).
Proof.
  induction ws as [|w ws IH]; cbn [fire_all]; [apply keeps_base_ret|].
  apply keeps_base_bind; [|done]. intros s. unfold fire.
  destruct (w_action w) as [ts|]; [|done].
  pose proof (keeps_base_start ext fuel ts s) as H.
  by destruct (start ext fuel ts s).
Qed.

Lemma keeps_base_watch_step (ext : string → bool → string → world → ext_result)
    (fuel : nat) (i : input) :
  keeps_base (watch_step ext fuel i).
Proof.
  intros s. destruct i as [p|]; cbn [watch_step].
  - apply keeps_base_fire_all.
  - by destruct (webpack_watch s).
Qed.

(** C9. [BASE_HREF] is computed once, when the build file is loaded, from
    the initial [DEV_MODE = false]; whatever targets have run since and
    whatever the watch loop has done, also after [serve] has set
    [DEV_MODE], it is still ['/AndroidAssetStudio/'], and that is what the
    [html] task substitutes for the placeholder. *)
Theorem base_href_constant (ext : string → bool → string → world → ext_result)
    (s : state) :
  reachable ext s →
  DEV_MODE load = false ∧
  BASE_HREF load = "/AndroidAssetStudio/" ∧
  BASE_HREF (vars s) = "/AndroidAssetStudio/" ∧
  ∀ P f, contents (replacePlugin (vars s) f) =
         replace_all placeholder "/AndroidAssetStudio/" (contents f) ∧
         ∀ fs, html P (vars s) fs = html P load fs.
Proof.
  intros Hs. split; [done|]. split; [done|].
  assert (BASE_HREF (vars s) = "/AndroidAssetStudio/") as Hb.
  { induction Hs as [w|fuel names s s' _ IH Hrun|fuel names s s' t _ IH Hrun
                      |fuel i s s' _ IH Hstep|s w _ IH].
    - done.
    - pose proof (keeps_base_start ext fuel names s) as H. rewrite Hrun in H. congruence.
    - pose proof (keeps_base_start ext fuel names s) as H. rewrite Hrun in H. congruence.
    - pose proof (keeps_base_watch_step ext fuel i s) as H. rewrite Hstep in H. congruence.
    - done. }
  split; [done|]. intros P f. split.
  - unfold replacePlugin. simpl. by rewrite Hb.
  - intros fs. unfold html, html_replaced, replacePlugin. by rewrite Hb.
Qed.

(** C9, at work: after [serve], in development mode. *)
Lemma base_href_in_dev_mode :
  reachable quiet serve_state ∧
  DEV_MODE (vars serve_state) = true ∧
  BASE_HREF (vars serve_state) = "/AndroidAssetStudio/".
Proof.
  assert (reachable quiet serve_state) as H.
  { apply (reach_run quiet 3 ["serve"] (init empty_world)); [apply reach_init|].
    by vm_compute. }
  split; [exact H|]. split; [reflexivity|].
  exact (proj1 (proj2 (proj2 (base_href_constant quiet serve_state H)))).
Defined.

(** ** What a run depends on *)

Lemma same_inputs_event (e1 e2 : event) (s1 s2 : state) :
  same_inputs s1 s2 → same_inputs (add_event e1 s1) (add_event e2 s2).
Proof. by intros (? & ? & ?). Qed.

Lemma blind_ret {A} (a : A) : blind (ret a).
Proof. by intros s1 s2 H. Qed.

Lemma blind_bind {A B} (m : M A) (k : A → M B) :
  blind m → (∀ a, blind (k a)) → blind (bind m k).
Proof.
  intros Hm Hk s1 s2 H. unfold bind. specialize (Hm s1 s2 H).
  destruct (m s1) as [a1 x1|a1 t1|], (m s2) as [a2 x2|a2 t2|]; try done.
  destruct Hm as [Hs <-]. by apply Hk.
Qed.

Lemma blind_log (e : event) : blind (log e).
Proof. intros s1 s2 H. split; [|done]. by apply same_inputs_event. Qed.

Lemma blind_watch (globs : list string) (a : on_change) : blind (gulp_watch globs a).
Proof. by intros s1 s2 (? & ? & ?). Qed.

Lemma blind_external (ext : string → bool → string → world → ext_result)
    (t : string) (pipeline : list (string * on_error)) :
  blind (external ext t pipeline).
Proof.
  intros s1 s2 (Hd & Hb & Hf). unfold external. rewrite Hd, Hb, Hf.
  destruct (raised _) as [p|]; [|by repeat split].
  destruct (handling pipeline p); by repeat split.
Qed.

Lemma blind_runSequence (st : list string → M unit) (sets : list (list string)) :
  (∀ names, blind (st names)) → blind (runSequence st sets).
Proof.
  intros Hst. induction sets as [|set sets IH]; cbn [runSequence].
  - apply blind_ret.
  - apply blind_bind; [apply Hst|done].
Qed.

Lemma blind_run_wave (tasks : gmap string task) (ts : list string)
    (failed : option string) :
  map_Forall (λ _ node, blind (fn node)) tasks →
  blind (run_wave tasks ts failed).
Proof.
  intros Htasks. revert failed. induction ts as [|t ts IH]; intros failed s1 s2 H.
  - by split.
  - cbn [run_wave]. destruct (tasks !! t) as [node|] eqn:Hl; [|by split].
    specialize (Htasks t node Hl s1 s2 H). simpl in Htasks.
    destruct (fn node s1) as [a1 []|a1 t1|], (fn node s2) as [a2 []|a2 t2|]; try done.
    + destruct Htasks as [Hs _]. by apply IH, same_inputs_event.
    + destruct Htasks as [Hs <-]. by apply IH, same_inputs_event.
Qed.

Lemma blind_run_waves (n : nat) (tasks : gmap string task) (seq done : list string) :
  map_Forall (λ _ node, blind (fn node)) tasks →
  blind (run_waves n tasks seq done).
Proof.
  intros Htasks. revert done. induction n as [|n IH]; intros done s1 s2 H;
    cbn [run_waves].
  - by destruct (List.filter _ seq).
  - destruct (List.filter _ seq); [by split|].
    pose proof (blind_run_wave tasks (List.filter (ready_now tasks done) seq) None
                  Htasks _ _
                  (same_inputs_event (Launch (List.filter (ready_now tasks done) seq))
                     (Launch (List.filter (ready_now tasks done) seq)) _ _ H)) as Hw.
    destruct (run_wave _ _ _ (add_event _ s1)) as [a1 x1|a1 t1|],
             (run_wave _ _ _ (add_event _ s2)) as [a2 x2|a2 t2|]; try done.
    destruct Hw as [Hs <-]. destruct x1; [by split|]. by apply IH.
Qed.

Lemma blind_orchestrate (tasks : gmap string task) (names : list string) :
  map_Forall (λ _ node, blind (fn node)) tasks →
  blind (orchestrate tasks names).
Proof.
  intros Htasks s1 s2 H. unfold orchestrate.
  destruct (sequencify _ _ _ _ _); try by split.
  by apply blind_run_waves.
Qed.

Lemma blind_gulpfile (ext : string → bool → string → world → ext_result)
    (st : list string → M unit) :
  (∀ names, blind (st names)) →
  map_Forall (λ _ node, blind (fn node)) (gulpfile ext st).
Proof.
  intros Hst. unfold gulpfile. rewrite !list_to_map_cons, list_to_map_nil.
  repeat (apply map_Forall_insert_2; [|]); [..|apply map_Forall_empty];
    cbn [fn task_webpack task_res task_copy task_styles task_html task_clean
           task_serve task___serve__ task_serve_dist task_service_worker
           task_default task_deploy browserSync];
    repeat first
      [ apply blind_external
      | apply blind_runSequence; [exact Hst]
      | apply blind_log
      | apply blind_watch
      | apply blind_bind; [|intros _] ];
    try (intros s1 s2 (Hd & Hb & Hf); simpl;
         solve [repeat split; simpl; congruence]).
  intros s1 s2 (Hd & Hb & Hf).
  by destruct (webpackInstance (vars s1)), (webpackInstance (vars s2)).
Qed.

Lemma blind_start (ext : string → bool → string → world → ext_result)
    (fuel : nat) (names : list string) :
  blind (start ext fuel names).
Proof.
  revert names. induction fuel as [|fuel IH]; intros names; [by intros s1 s2 H|].
  cbn [start]. apply blind_orchestrate, blind_gulpfile, IH.
Qed.

(** The default target cleans first: two runs from states with the same
    sources and the same [DEV_MODE] and [BASE_HREF] end the same way,
    whatever the earlier builds left in [.tmp], [dist] and the cache. *)
Lemma default_same_sources (ext : string → bool → string → world → ext_result)
    (fuel : nat) (s1 s2 : state) :
  DEV_MODE (vars s1) = DEV_MODE (vars s2) →
  BASE_HREF (vars s1) = BASE_HREF (vars s2) →
  source (fs s1) = source (fs s2) →
  same_outcome (start ext (S (S fuel)) ["default"] s1)
               (start ext (S (S fuel)) ["default"] s2).
Proof.
  intros Hd Hb Hs. cbn [start]. rewrite !orchestrate_default.
  assert (same_inputs (after_clean s1) (after_clean s2)) as H.
  { unfold after_clean. repeat split; simpl; congruence. }
  pose proof (blind_runSequence (start ext (S fuel))
                [["styles"]; ["webpack"; "html"; "res"; "copy"]; ["service-worker"]]
                (blind_start ext (S fuel)) _ _ H) as Hrun.
  destruct (runSequence _ _ (after_clean s1)) as [a1 x1|a1 t1|],
           (runSequence _ _ (after_clean s2)) as [a2 x2|a2 t2|];
    try exact Hrun; try destruct Hrun as [Hi Heq];
    (split; [by apply same_inputs_event|exact Heq || reflexivity]).
Qed.

(** C8. The default target run twice in a row, the sources untouched in
    between: both runs end, and they end alike, with the same [succeeded]
    and, when they fail, at the same task. *)
Theorem clean_build_idempotent (ext : string → bool → string → world → ext_result)
    (fuel : nat) (s : state) :
  ∃ s1 r1 s2 r2,
    runTarget ext (S (S fuel)) "default" s = Some (s1, r1) ∧
    runTarget ext (S (S fuel)) "default" s1 = Some (s2, r2) ∧
    source (fs s1) = source (fs s) ∧
    succeeded r1 = succeeded r2 ∧
    failedStep r1 = failedStep r2.
Proof.
  destruct (default_run ext fuel s) as (s1 & tr1 & _ & (Hd & Hb & Hs) & Hrun1).
  pose proof (default_same_sources ext fuel s s1 (eq_sym Hd) (eq_sym Hb) (eq_sym Hs))
    as Hsame.
  unfold runTarget.
  destruct Hrun1 as [(Hok & _) | (i & stage & t & Herr & _)].
  - rewrite Hok in Hsame.
    destruct (start ext (S (S fuel)) ["default"] s1) as [s2 []|s2 t2|] eqn:H2;
      [|destruct Hsame..].
    exists s1, (mkRunResult true None), s2, (mkRunResult true None).
    rewrite Hok, H2. clear Hok H2.
    repeat split; solve [reflexivity | exact Hs].
  - rewrite Herr in Hsame.
    destruct (start ext (S (S fuel)) ["default"] s1) as [s2 []|s2 t2|] eqn:H2;
      [destruct Hsame| |destruct Hsame].
    destruct Hsame as [_ <-].
    exists s1, (mkRunResult false (Some t)), s2, (mkRunResult false (Some t)).
    rewrite Herr, H2. clear Herr H2.
    repeat split; solve [reflexivity | exact Hs].
Qed.

(** ** The watch loop *)

Lemma app_glob (ext_ : string) (path : list string) :
  has_char "*" ext_ = false →
  segs_match [Seg (atoms_of "app"); GlobStar; Seg (GStar :: atoms_of ext_)] path = true →
  ∃ dirs name, path = "app" :: dirs ++ [name] ∧ ends_with ext_ name.
Proof.
  intros Hs H. destruct path as [|a rest]; [done|].
  cbn [segs_match] in H. apply andb_prop in H as [Ha H].
  apply seg_match_literal in Ha as ->; [|done..].
  apply segs_match_globstar_last in H as (dirs & name & -> & _ & Hn).
  exists dirs, name. split; [done|].
  unfold seg_match in Hn. apply andb_prop in Hn as [_ Hw].
  by apply wild_suffix in Hw.
Qed.

(** A stylesheet is no page: the globs of the two watchers that start
    tasks select different files. *)
Lemma styles_not_html (p : list string) :
  glob_select styles_watch_globs p = true → glob_select html_watch_globs p = false.
Proof.
  intros Hst. apply not_true_is_false. intros Hh.
  assert (∃ dirs name, p = "app" :: "html" :: dirs ++ [name] ∧ ends_with ".html" name)
    as (dirs & name & -> & Hname).
  { unfold glob_select, html_watch_globs in Hh.
    cbn [existsb forallb negated segs negb andb orb] in Hh.
    rewrite !andb_true_r, orb_false_r in Hh.
    apply html_positive in Hh as (dirs & name & -> & _ & _ & He). by exists dirs, name. }
  apply (ends_with_last ".htm") in Hname as [x ->].
  unfold glob_select, styles_watch_globs in Hst.
  cbn [existsb forallb negated segs negb andb orb] in Hst.
  rewrite !andb_true_r, orb_false_r in Hst.
  apply orb_prop in Hst as [H|H].
  - apply (app_glob ".scss") in H as (dirs' & name' & Heq & He); [|done].
    injection Heq as Heq.
    change ("html" :: dirs ++ [x +:+ "l"]) with (("html" :: dirs) ++ [x +:+ "l"]) in Heq.
    apply app_inj_tail in Heq as [_ <-].
    apply (ends_with_last ".scs") in He as [y Hy].
    by apply (last_string_neq x y "l"%char "s"%char) in Hy.
  - apply (app_glob ".css") in H as (dirs' & name' & Heq & He); [|done].
    injection Heq as Heq.
    change ("html" :: dirs ++ [x +:+ "l"]) with (("html" :: dirs) ++ [x +:+ "l"]) in Heq.
    apply app_inj_tail in Heq as [_ <-].
    apply (ends_with_last ".cs") in He as [y Hy].
    by apply (last_string_neq x y "l"%char "s"%char) in Hy.
Qed.

Lemma serve_watchers_select (p : list string) :
  List.filter (λ w, glob_select (w_globs w) p) serve_watchers =
  (if glob_select html_watch_globs p
   then [Watcher html_watch_globs (StartThenReload ["html"])] else []) ++
  (if glob_select styles_watch_globs p
   then [Watcher styles_watch_globs (StartThenReload ["styles"])] else []) ++
  (if glob_select res_watch_globs p
   then [Watcher res_watch_globs ReloadNow] else []).
Proof.
  unfold serve_watchers, html_watch_globs, styles_watch_globs, res_watch_globs.
  cbn [List.filter w_globs].
  repeat match goal with
         | |- context [glob_select ?g p] => destruct (glob_select g p)
         end; reflexivity.
Qed.

(** A change to a page or to a stylesheet while watching: the one task of
    the watcher is started, alone; however that run ends, [reload] is
    called next; a file that is also under [app/res] calls it once more. *)
Lemma watch_change (ext : string → bool → string → world → ext_result)
    (fuel : nat) (s : state) (p : list string) (t : string) :
  watchers s = serve_watchers →
  (t = "styles" ∧ glob_select styles_watch_globs p = true) ∨
  (t = "html" ∧ glob_select html_watch_globs p = true) →
  ∃ s1 evs rest s',
    trace s1 = trace s ++ Launch [t] :: evs ∧
    launched evs = [] ∧
    ((start ext (S fuel) [t] s = Ok s1 tt ∧ ∀ A, TaskErr A ∉ evs) ∨
     (start ext (S fuel) [t] s = Err s1 t ∧ TaskErr t ∈ evs)) ∧
    watch_step ext (S fuel) (Changed p) s = Ok s' tt ∧
    trace s' = trace s1 ++ Reload :: rest ∧
    (rest = [] ∨ rest = [Reload]).
Proof.
  intros Hw Hsel.
  assert ([t] ∈ leaf_sets) as Hleaf.
  { destruct Hsel as [[-> _]|[-> _]]; apply (bool_decide_unpack _); by vm_compute. }
  destruct (start_leaves ext fuel [t] s Hleaf) as (s1 & evs & Htr & Hla & _ & Hres).
  assert ((start ext (S fuel) [t] s = Ok s1 tt ∧ ∀ A, TaskErr A ∉ evs) ∨
          (start ext (S fuel) [t] s = Err s1 t ∧ TaskErr t ∈ evs)) as Hres'.
  { destruct Hres as [?|(t' & Ht' & Hin & Herr & _)]; [by left|right].
    apply list_elem_of_singleton in Hin as ->. done. }
  assert (∀ globs, fire ext (S fuel) (Watcher globs (StartThenReload [t])) s =
                   Ok (add_event Reload s1) tt) as Hfire.
  { intros globs. unfold fire. cbn [w_action].
    by destruct Hres' as [[-> _]|[-> _]]. }
  cbn [watch_step]. rewrite Hw, serve_watchers_select.
  destruct Hsel as [[-> Hst]|[-> Hh]].
  - rewrite Hst, (styles_not_html p Hst). cbn [app].
    destruct (glob_select res_watch_globs p); cbn [fire_all]; unfold bind;
      rewrite Hfire.
    + exists s1, evs, [Reload]. eexists. repeat split; try done; [|by right].
      simpl. by rewrite <- app_assoc.
    + exists s1, evs, []. eexists. repeat split; try done. by left.
  - rewrite Hh.
    assert (glob_select styles_watch_globs p = false) as ->.
    { apply not_true_is_false. intros Hst. apply styles_not_html in Hst. congruence. }
    cbn [app].
    destruct (glob_select res_watch_globs p); cbn [fire_all]; unfold bind;
      rewrite Hfire.
    + exists s1, evs, [Reload]. eexists. repeat split; try done; [|by right].
      simpl. by rewrite <- app_assoc.
    + exists s1, evs, []. eexists. repeat split; try done. by left.
Qed.







(** ** The resolver of the design *)

Section ResolverProofs.

Import Resolver.

Variable reg : gmap string (list string).

Lemma extends_refl (marks : gmap string color) : extends marks marks.
Proof. by split. Qed.

Lemma extends_trans (m1 m2 m3 : gmap string color) :
  extends m1 m2 → extends m2 m3 → extends m1 m3.
Proof.
  intros [Hb1 Hg1] [Hb2 Hg2]. split.
  - intros n k H. by apply Hb2, Hb1.
  - intros n. by rewrite Hg1, Hg2.
Qed.

Lemma chain_app_edge (l : list string) (a b : string) :
  chain reg (l ++ [a]) → edge reg a b → chain reg ((l ++ [a]) ++ [b]).
Proof.
  intros Hc He. induction l as [|x l IH].
  - simpl. by split.
  - destruct l as [|y l].
    + simpl in *. destruct Hc as [Hxa _]. by repeat split.
    + simpl in *. destruct Hc as [Hxy Hc]. split; [done|]. by apply IH.
Qed.

Lemma chain_tail (x : string) (l : list string) :
  chain reg (x :: l) → chain reg l.
Proof. destruct l; [done|]. by intros [_ ?]. Qed.

(** The in-progress path from the first visit of [name] on, closed by
    [name], names a cycle. *)
Lemma cycle_from_names (name : string) (path : list string) :
  name ∈ path → chain reg (path ++ [name]) → names_cycle reg (cycle_from name path).
Proof.
  induction path as [|x path IH]; intros Hin Hc.
  - by apply elem_of_nil in Hin.
  - cbn [cycle_from]. case_bool_decide as Hx.
    + subst x. by exists name, path.
    + apply elem_of_cons in Hin as [->|Hin]; [done|].
      apply IH; [done|]. by apply (chain_tail x).
Qed.

Lemma path_bound (path : list string) :
  NoDup path → (∀ x, x ∈ path → is_Some (reg !! x)) → length path ≤ size reg.
Proof.
  intros Hnd Hreg. rewrite <- (size_dom reg).
  change (length path ≤ length (elements (dom reg))).
  apply submseteq_length, NoDup_submseteq; [done|].
  intros x Hx. apply elem_of_elements, elem_of_dom. by apply Hreg.
Qed.

(** The dependencies of a step, given that visiting any one of them is
    sound on the markings that keep [I]: all of them end finished, with a
    stage below the one returned. *)
Lemma visit_deps_sound (R : string → Prop) (I : gmap string color → Prop)
    (v : string → gmap string color → visited) (deps : list string) :
  (∀ m m', I m → extends m m' → I m') →
  (∀ d marks, d ∈ deps → I marks → black_closed reg marks →
     sound reg R marks (v d marks) (λ marks' j, marks' !! d = Some (Black j))) →
  ∀ marks acc, I marks → black_closed reg marks →
    sound reg R marks (visit_deps v deps marks acc)
      (λ marks' k, acc ≤ k ∧ ∀ d, d ∈ deps → ∃ j, marks' !! d = Some (Black j) ∧ j < k).
Proof.
  intros HI. induction deps as [|d deps IH]; intros Hv marks acc Hinv Hbc;
    cbn [visit_deps].
  - split; [done|]. split; [apply extends_refl|]. split; [done|].
    intros d Hd. by apply elem_of_nil in Hd.
  - pose proof (Hv d marks (list_elem_of_here _ _) Hinv Hbc) as Hd.
    destruct (v d marks) as [marks1 j|[c|n]|]; try done.
    destruct Hd as (Hbc1 & Hext1 & Hdj).
    assert (∀ d0 marks0, d0 ∈ deps → I marks0 → black_closed reg marks0 →
              sound reg R marks0 (v d0 marks0)
                (λ marks' j0, marks' !! d0 = Some (Black j0))) as Hv'.
    { intros d0 marks0 Hd0. apply Hv. by right. }
    pose proof (IH Hv' marks1 (acc `max` S j) (HI _ _ Hinv Hext1) Hbc1) as Hrest.
    destruct (visit_deps v deps marks1 (acc `max` S j)) as [marks2 k|[c|n]|]; try done.
    destruct Hrest as (Hbc2 & Hext2 & Hk & Hall).
    split; [done|]. split; [by eapply extends_trans|]. split; [lia|].
    intros d0 [->|Hd0]%elem_of_cons; [|by apply Hall].
    exists j. split; [|lia]. by apply Hext2.
Qed.

(** One visit, from a marking whose in-progress steps are the path that
    led here: the step ends finished, or a cycle or an unregistered name is
    reported; the fuel is enough as long as it exceeds the steps not yet on
    the path. *)
Lemma visit_sound (R : string → Prop) :
  (∀ a b, R a → edge reg a b → R b) →
  ∀ fuel path name marks,
    size reg < fuel + length path →
    R name →
    NoDup path →
    (∀ x, x ∈ path → is_Some (reg !! x)) →
    (∀ n, marks !! n = Some Gray ↔ n ∈ path) →
    chain reg (path ++ [name]) →
    black_closed reg marks →
    sound reg R marks (visit fuel reg path name marks)
      (λ marks' k, marks' !! name = Some (Black k)).
Proof.
  intros HR. induction fuel as [|fuel IH];
    intros path name marks Hfuel HRn Hnd Hreg Hgray Hchain Hbc.
  - pose proof (path_bound path Hnd Hreg). simpl in Hfuel. lia.
  - cbn [visit]. destruct (marks !! name) as [[|k]|] eqn:Hm.
    + apply cycle_from_names; [by apply Hgray|done].
    + split; [done|]. split; [apply extends_refl|done].
    + destruct (reg !! name) as [deps|] eqn:Hr; [|by split].
      assert (name ∉ path) as Hfresh.
      { intros Hin. apply Hgray in Hin. congruence. }
      assert (black_closed reg (<[name:=Gray]> marks)) as Hbc1.
      { intros n k Hn. destruct (decide (n = name)) as [->|Hne].
        { rewrite lookup_insert_eq in Hn. done. }
        rewrite lookup_insert_ne in Hn by done.
        destruct (Hbc n k Hn) as (ds & Hds & Hall). exists ds. split; [done|].
        intros d Hd. destruct (Hall d Hd) as (j & Hj & Hlt). exists j. split; [|done].
        rewrite lookup_insert_ne; [done|]. intros <-. congruence. }
      assert (∀ marks0, extends (<[name:=Gray]> marks) marks0 →
                ∀ n, marks0 !! n = Some Gray ↔ n ∈ path ++ [name]) as Hgray1.
      { intros marks0 [_ Hg] n. rewrite <- Hg, elem_of_app, list_elem_of_singleton.
        destruct (decide (n = name)) as [->|Hne].
        - rewrite lookup_insert_eq. naive_solver.
        - rewrite lookup_insert_ne, Hgray by done. naive_solver. }
      assert (sound reg R (<[name:=Gray]> marks)
                (visit_deps (visit fuel reg (path ++ [name])) deps
                   (<[name:=Gray]> marks) 0)
                (λ marks' k, 0 ≤ k ∧
                   ∀ d, d ∈ deps → ∃ j, marks' !! d = Some (Black j) ∧ j < k)) as Hres.
      { apply (visit_deps_sound R (extends (<[name:=Gray]> marks)));
          [apply extends_trans| |apply extends_refl|done].
        intros d marks0 Hd Hext0 Hbc0. apply IH; try done.
        - rewrite length_app. simpl. lia.
        - apply (HR name); [done|]. by exists deps.
        - apply NoDup_app. repeat split; [done| |apply NoDup_singleton].
          intros x Hx ->%list_elem_of_singleton. done.
        - intros x [Hx| ->%list_elem_of_singleton]%elem_of_app; [by apply Hreg|].
          by rewrite Hr.
        - by apply Hgray1.
        - apply chain_app_edge; [done|]. by exists deps. }
      destruct (visit_deps _ deps _ 0) as [marks' k|[c|n]|]; try done.
      destruct Hres as (Hbc' & Hext' & _ & Hall).
      assert (marks' !! name = Some Gray) as Hng.
      { apply Hext'. by rewrite lookup_insert_eq. }
      split; [|split].
      * intros n k0 Hn. destruct (decide (n = name)) as [->|Hne].
        -- rewrite lookup_insert_eq in Hn. injection Hn as <-.
           exists deps. split; [done|]. intros d Hd.
           destruct (Hall d Hd) as (j & Hj & Hlt). exists j. split; [|done].
           rewrite lookup_insert_ne; [done|]. intros <-. congruence.
        -- rewrite lookup_insert_ne in Hn by done.
           destruct (Hbc' n k0 Hn) as (ds & Hds & Hall'). exists ds. split; [done|].
           intros d Hd. destruct (Hall' d Hd) as (j & Hj & Hlt). exists j.
           split; [|done]. rewrite lookup_insert_ne; [done|]. intros <-. congruence.
      * destruct Hext' as [Hb Hg]. split.
        -- intros n k0 Hn. assert (n ≠ name) by (intros ->; congruence).
           rewrite lookup_insert_ne by done. apply Hb.
           by rewrite lookup_insert_ne.
        -- intros n. destruct (decide (n = name)) as [->|Hne].
           ++ rewrite lookup_insert_eq, Hm. naive_solver.
           ++ rewrite lookup_insert_ne by done. rewrite <- Hg.
              by rewrite lookup_insert_ne.
      * by rewrite lookup_insert_eq.
Qed.

(** Below a finished step everything is finished, with a stage that goes
    down along every dependency. *)
Lemma black_below (marks : gmap string color) (a b : string) (k : nat) :
  black_closed reg marks → marks !! a = Some (Black k) → reaches reg a b →
  ∃ j, marks !! b = Some (Black j) ∧ j ≤ k.
Proof.
  intros Hbc Ha Hab. revert k Ha.
  induction Hab as [a|a m b (deps & Hr & Hm) _ IH]; intros k Ha.
  - by exists k.
  - destruct (Hbc a k Ha) as (deps' & Hr' & Hall).
    assert (deps' = deps) as -> by congruence.
    destruct (Hall m Hm) as (j & Hj & Hlt).
    destruct (IH j Hj) as (i & Hi & Hle). exists i. split; [done|lia].
Qed.

Lemma black_strictly_below (marks : gmap string color) (a b : string) (k : nat) :
  black_closed reg marks → marks !! a = Some (Black k) → depends_on reg a b →
  ∃ j, marks !! b = Some (Black j) ∧ j < k.
Proof.
  intros Hbc Ha Hab.
  destruct Hab as [a b (deps & Hr & Hm)|a m b (deps & Hr & Hm) Hmb].
  - destruct (Hbc a k Ha) as (deps' & Hr' & Hall).
    assert (deps' = deps) as -> by congruence. by apply Hall.
  - destruct (Hbc a k Ha) as (deps' & Hr' & Hall).
    assert (deps' = deps) as -> by congruence.
    destruct (Hall m Hm) as (j & Hj & Hlt).
    destruct (black_below marks m b j Hbc Hj (tc_rtc _ _ Hmb)) as (i & Hi & Hle).
    exists i. split; [done|lia].
Qed.

(** What [resolve] returns: a graph only from a marking in which every
    target is finished; otherwise a cycle of the registry or a reachable
    name that was never registered; never for want of fuel. *)
Lemma resolve_sound (targets : list string) :
  match resolve reg targets with
  | BuildGraph _ =>
      ∃ marks, black_closed reg marks ∧
        ∀ t, t ∈ targets → ∃ k, marks !! t = Some (Black k)
  | Fails (CyclicDependencyError c) => names_cycle reg c
  | Fails (UnknownDependencyError n) => reachable reg targets n ∧ reg !! n = None
  | NoFuel => False
  end.
Proof.
  unfold resolve.
  assert (sound reg (reachable reg targets) ∅
            (visit_deps (visit (S (size reg)) reg []) targets ∅ 0)
            (λ marks' k, 0 ≤ k ∧
               ∀ d, d ∈ targets → ∃ j, marks' !! d = Some (Black j) ∧ j < k)) as H.
  { apply (visit_deps_sound (reachable reg targets)
             (λ m, ∀ n, m !! n = Some Gray ↔ n ∈ @nil string)).
    - intros m m' Hm [_ Hg] n. by rewrite <- Hg.
    - intros t marks Ht Hgray Hbc. apply visit_sound; try done.
      + intros a b (t0 & Ht0 & Ha) Hab. exists t0. split; [done|].
        by eapply rtc_r.
      + simpl. lia.
      + by exists t.
      + apply NoDup_nil_2.
      + intros x Hx. by apply elem_of_nil in Hx.
    - intros n. rewrite lookup_empty. split; [done|]. intros Hn.
      by apply elem_of_nil in Hn.
    - intros n k Hn. by rewrite lookup_empty in Hn. }
  destruct (visit_deps _ targets ∅ 0) as [marks k|[c|n]|]; try done.
  destruct H as (Hbc & _ & _ & Hall). exists marks. split; [done|].
  intros t Ht. destruct (Hall t Ht) as (j & Hj & _). by exists j.
Qed.

End ResolverProofs.

(** C7, as the design has it. When a step that the targets reach depends
    on itself, [resolve] returns no build graph and does not give up: it
    fails, naming a cycle of the registry or a reachable name that was
    never registered; when every reachable name is registered the failure
    is [CyclicDependencyError] and names a cycle. *)
Theorem cycle_is_reported (reg : gmap string (list string)) (targets : list string)
    (x : string) :
  Resolver.reachable reg targets x →
  Resolver.depends_on reg x x →
  (∃ e, Resolver.resolve reg targets = Resolver.Fails e ∧
     match e with
     | Resolver.CyclicDependencyError c => Resolver.names_cycle reg c
     | Resolver.UnknownDependencyError n =>
         Resolver.reachable reg targets n ∧ reg !! n = None
     end) ∧
  ((∀ n, Resolver.reachable reg targets n → is_Some (reg !! n)) →
   ∃ c, Resolver.resolve reg targets =
          Resolver.Fails (Resolver.CyclicDependencyError c) ∧
        Resolver.names_cycle reg c).
Proof.
  intros (t & Ht & Htx) Hcycle.
  pose proof (resolve_sound reg targets) as H.
  destruct (Resolver.resolve reg targets) as [g|e|]; [|clear Hcycle Htx|done].
  - exfalso. destruct H as (marks & Hbc & Hall).
    destruct (Hall t Ht) as (k & Hk).
    destruct (black_below reg marks t x k Hbc Hk Htx) as (j & Hj & _).
    destruct (black_strictly_below reg marks x x j Hbc Hj Hcycle) as (i & Hi & Hlt).
    rewrite Hj in Hi. injection Hi as <-. lia.
  - split; [by exists e|]. intros Hclosed. destruct e as [c|n].
    + by exists c.
    + destruct H as [Hn Hnone]. apply Hclosed in Hn as [? Hn]. congruence.
Qed.

(** C7, at work: [a] reaches the cycle of [b] and [c]. *)
Lemma cycle_is_reported_behind_target :
  Resolver.reachable cyclic_registry ["a"] "b" ∧
  Resolver.depends_on cyclic_registry "b" "b" ∧
  (∃ e, Resolver.resolve cyclic_registry ["a"] = Resolver.Fails e ∧
     match e with
     | Resolver.CyclicDependencyError c => Resolver.names_cycle cyclic_registry c
     | Resolver.UnknownDependencyError n =>
         Resolver.reachable cyclic_registry ["a"] n ∧ cyclic_registry !! n = None
     end) ∧
  ((∀ n, Resolver.reachable cyclic_registry ["a"] n →
         is_Some (cyclic_registry !! n)) →
   ∃ c, Resolver.resolve cyclic_registry ["a"] =
          Resolver.Fails (Resolver.CyclicDependencyError c) ∧
        Resolver.names_cycle cyclic_registry c).
Proof.
  assert (Resolver.edge cyclic_registry "a" "b") as Hab.
  { exists ["b"]. split; [reflexivity|]. apply list_elem_of_here. }
  assert (Resolver.edge cyclic_registry "b" "c") as Hbc.
  { exists ["c"; "d"]. split; [reflexivity|]. apply list_elem_of_here. }
  assert (Resolver.edge cyclic_registry "c" "b") as Hcb.
  { exists ["b"]. split; [reflexivity|]. apply list_elem_of_here. }
  assert (Resolver.reachable cyclic_registry ["a"] "b") as Hreach.
  { exists "a". split; [apply list_elem_of_here|]. apply rtc_once, Hab. }
  assert (Resolver.depends_on cyclic_registry "b" "b") as Hcycle.
  { eapply tc_l; [exact Hbc|]. apply tc_once, Hcb. }
  split; [exact Hreach|]. split; [exact Hcycle|].
  exact (cycle_is_reported cyclic_registry ["a"] "b" Hreach Hcycle).
Defined.

Example cycle_named :
  Resolver.resolve cyclic_registry ["a"] =
  Resolver.Fails (Resolver.CyclicDependencyError ["b"; "c"; "b"]).
Proof. by vm_compute. Qed.

(** C7, the claim as stated fails: a registry can contain a cycle that the
    target does not reach, and [resolve] then returns a build graph; and
    next to a name that was never registered the failure met first is
    [UnknownDependencyError]. *)
Lemma cycle_not_always_reported :
  (Resolver.depends_on detached_cycle_registry "b" "b" ∧
   Resolver.resolve detached_cycle_registry ["a"] = Resolver.BuildGraph [["a"]]) ∧
  (Resolver.depends_on unknown_first_registry "a" "a" ∧
   Resolver.resolve unknown_first_registry ["a"] =
     Resolver.Fails (Resolver.UnknownDependencyError "zz")).
Proof.
  split; (split; [|by vm_compute]).
  - eapply tc_l; [|apply tc_once].
    + exists ["c"]. split; [reflexivity|]. apply list_elem_of_here.
    + exists ["b"]. split; [reflexivity|]. apply list_elem_of_here.
  - eapply tc_l; [|apply tc_once].
    + exists ["zz"; "b"]. split; [reflexivity|]. apply list_elem_of_further, list_elem_of_here.
    + exists ["a"]. split; [reflexivity|]. apply list_elem_of_here.
Qed.

(** * More properties of the build file *)

(** ** Errors the build file catches *)

Section Caught.

Variable ext : string → bool → string → world → ext_result.
Hypothesis Hcaught : only_caught ext.

Lemma caught_leaf (st : list string → M unit) (t : string) :
  t ∈ ["webpack"; "html"; "res"; "copy"; "styles"; "service-worker"] →
  ∃ node, gulpfile ext st !! t = Some node ∧ ∀ s, ∃ s', fn node s = Ok s' tt.
Proof.
  intros Ht.
  repeat (apply elem_of_cons in Ht as [->|Ht]); [..|by apply elem_of_nil in Ht];
    (eexists; split; [reflexivity|]); intros s;
    cbn [snd fn task_webpack task_html task_res task_copy task_styles
           task_service_worker]; unfold bind, external;
    match goal with
    | |- context [raised (ext ?t ?d ?b ?w)] =>
        pose proof (Hcaught t d b w) as Hc; destruct (raised (ext t d b w)) as [p|]
    end;
    try (eexists; reflexivity);
    specialize (Hc p eq_refl); unfold caught in Hc;
    rewrite !orb_true_iff, !bool_decide_eq_true in Hc;
    destruct Hc as [[[[Ht Hp]|[Ht Hp]]|[Ht Hp]]|[Ht Hp]]; try discriminate Ht;
    subst p; eexists; reflexivity.
Qed.

Lemma caught_wave (st : list string → M unit) (ts : list string) (s : state) :
  ts ⊆ ["webpack"; "html"; "res"; "copy"; "styles"; "service-worker"] →
  ∃ s', run_wave (gulpfile ext st) ts None s = Ok s' None.
Proof.
  revert s. induction ts as [|t ts IH]; intros s Hsub.
  - by exists s.
  - destruct (caught_leaf st t) as (node & Hl & Hrun); [apply Hsub; by left|].
    rewrite (run_wave_cons _ _ _ _ _ _ Hl).
    destruct (Hrun s) as (s1 & ->). apply IH.
    intros x Hx. apply Hsub. by right.
Qed.

Lemma caught_start (fuel : nat) (ts : list string) (s : state) :
  ts ∈ leaf_sets → ∃ s', start ext (S fuel) ts s = Ok s' tt.
Proof.
  intros Hts. cbn [start].
  assert (ts ⊆ ["webpack"; "html"; "res"; "copy"; "styles"; "service-worker"] ∧
          sequencify (S (size (gulpfile ext (start ext fuel))))
            (gulpfile ext (start ext fuel)) ts [] [] = Sequence ts ∧
          ts ≠ [] ∧
          List.filter (ready_now (gulpfile ext (start ext fuel)) []) ts = ts)
    as (Hsub & Hseq & Hne & Hready).
  { unfold leaf_sets in Hts.
    repeat (apply elem_of_cons in Hts as [->|Hts]);
      [..|by apply elem_of_nil in Hts];
      (split; [|split; [by vm_compute|split; [done|by vm_compute]]]);
      intros t Ht;
      repeat (apply elem_of_cons in Ht as [->|Ht]);
      try (by apply elem_of_nil in Ht);
      apply (bool_decide_unpack _); by vm_compute. }
  rewrite orchestrate_set by done.
  destruct (caught_wave (start ext fuel) ts (add_event (Launch ts) s) Hsub)
    as (s' & ->).
  by exists s'.
Qed.


End Caught.


Example sass_error_trace :
  ∃ s', start sass_fails 2 ["default"] (init empty_world) = Ok s' tt ∧
    trace s' =
      [Launch ["clean"]; Stop "clean"; Launch ["default"];
       Launch ["styles"]; ConsoleError "styles" "sass"; Stop "styles";
       Launch ["webpack"; "html"; "res"; "copy"];
       Stop "webpack"; Stop "html"; Stop "res"; Stop "copy";
       Launch ["service-worker"]; Stop "service-worker"; Stop "default"].
Proof. eexists. split; by vm_compute. Qed.

(** ** [serve] and [serve:dist] *)

Lemma servers_app (a b : list event) : servers (a ++ b) = servers a ++ servers b.
Proof. apply omap_app. Qed.

Lemma servers_leaf (evs : list event) : Forall leaf_event evs → servers evs = [].
Proof. induction 1 as [|e evs He _ IH]; [done|]. by destruct e. Qed.

Lemma launched_leaf (evs : list event) : Forall leaf_event evs → launched evs = [].
Proof. induction 1 as [|e evs He _ IH]; [done|]. by destruct e. Qed.

Section Serving.

Variable ext : string → bool → string → world → ext_result.

Lemma serve_body (s : state) : fn task___serve__ s = Ok (after_serve_body s) tt.
Proof.
  unfold task___serve__, fn, bind, browserSync, log, gulp_watch, after_serve_body.
  cbn [vars fs watchers webpack_watch trace].
  rewrite <- !app_assoc.
  by destruct (webpackInstance (vars s)).
Qed.

(** A plugin task of the build file: how it ends, what it adds to the
    trace, and what it does to [webpackInstance]. *)
Lemma leaf_more (st : list string → M unit) (t : string) :
  t ∈ ["webpack"; "html"; "res"; "copy"; "styles"; "service-worker"] →
  ∃ node, gulpfile ext st !! t = Some node ∧
    ∀ s, ∃ s' evs,
      (fn node s = Ok s' tt ∨ fn node s = Err s' t) ∧
      trace s' = trace s ++ evs ∧
      Forall leaf_event evs ∧
      kept s s' ∧
      (webpackInstance (vars s) = true ∨ t = "webpack" →
       webpackInstance (vars s') = true).
Proof.
  intros Ht.
  repeat (apply elem_of_cons in Ht as [->|Ht]); [..|by apply elem_of_nil in Ht];
    (eexists; split; [reflexivity|]); intros s;
    cbn [snd fn task_webpack task_html task_res task_copy task_styles
           task_service_worker]; unfold bind, external;
    match goal with
    | |- context [raised (ext ?t ?d ?b ?w)] => destruct (raised (ext t d b w)) as [p|]
    end;
    try match goal with
        | |- context [handling ?pl ?q] => destruct (handling pl q)
        end;
    (eexists _, _; split; [first [by left | by right]|]);
    (split; [cbn [trace set_fs set_vars errorHandler log];
             first [by rewrite app_nil_r | reflexivity]|]);
    (split; [repeat constructor|]);
    (split; [by repeat split|]);
    cbn [vars set_fs set_vars webpackInstance];
    intros [H|H]; first [exact H | discriminate H | reflexivity].
Qed.

Lemma wave_more (st : list string → M unit) (ts : list string) :
  ts ⊆ ["webpack"; "html"; "res"; "copy"; "styles"; "service-worker"] →
  ∀ failed s, ∃ s' evs failed',
    run_wave (gulpfile ext st) ts failed s = Ok s' failed' ∧
    trace s' = trace s ++ evs ∧
    Forall leaf_event evs ∧
    kept s s' ∧
    (∀ f, failed = Some f → failed' = Some f) ∧
    (failed = None → ∀ t, failed' = Some t → t ∈ ts) ∧
    (webpackInstance (vars s) = true ∨ "webpack" ∈ ts →
     webpackInstance (vars s') = true).
Proof.
  induction ts as [|t ts IH]; intros Hsub failed s.
  - exists s, [], failed. cbn [run_wave]. rewrite app_nil_r.
    repeat split; try done.
    + intros -> t [=].
    + intros [H|H]; [done|]. by apply elem_of_nil in H.
  - destruct (leaf_more st t) as (node & Hl & Hrun); [apply Hsub; by left|].
    rewrite (run_wave_cons _ _ _ _ _ _ Hl).
    destruct (Hrun s) as (s1 & evs1 & Hres & Htr1 & Hev1 & Hk1 & Hw1).
    assert (ts ⊆ ["webpack"; "html"; "res"; "copy"; "styles"; "service-worker"])
      as Hsub'.
    { intros x Hx. apply Hsub. by right. }
    destruct Hres as [-> | ->].
    + destruct (IH Hsub' failed (add_event (Stop t) s1))
        as (s' & evs & failed' & -> & Htr & Hev & Hk & Hsame & Hf & Hw).
      exists s', (evs1 ++ Stop t :: evs), failed'. split; [done|].
      split; [rewrite Htr; simpl; rewrite Htr1; by rewrite <- !app_assoc|].
      split; [apply Forall_app; split; [done|by constructor]|].
      split; [by eapply kept_trans|].
      split; [done|]. split.
      * intros Hn x Hx. right. by apply (Hf Hn).
      * intros [H|H]; apply Hw; simpl.
        -- left. apply Hw1. by left.
        -- apply elem_of_cons in H as [<-|H]; [left; apply Hw1; by right|by right].
    + destruct (IH Hsub' (first_failure failed t) (add_event (TaskErr t) s1))
        as (s' & evs & failed' & -> & Htr & Hev & Hk & Hsame & Hf & Hw).
      exists s', (evs1 ++ TaskErr t :: evs), failed'. split; [done|].
      split; [rewrite Htr; simpl; rewrite Htr1; by rewrite <- !app_assoc|].
      split; [apply Forall_app; split; [done|by constructor]|].
      split; [by eapply kept_trans|].
      split; [|split].
      * intros f ->. by apply Hsame.
      * intros -> x Hx. rewrite (Hsame t eq_refl) in Hx. injection Hx as <-.
        by left.
      * intros [H|H]; apply Hw; simpl.
        -- left. apply Hw1. by left.
        -- apply elem_of_cons in H as [<-|H]; [left; apply Hw1; by right|by right].
Qed.

Lemma orchestrate___serve__ (st : list string → M unit) (s : state) :
  orchestrate (gulpfile ext st) ["__serve__"] s =
  match run_wave (gulpfile ext st) ["styles"; "html"; "webpack"] None
          (add_event (Launch ["styles"; "html"; "webpack"]) s) with
  | Ok s1 None =>
      Ok (add_event (Stop "__serve__")
            (after_serve_body (add_event (Launch ["__serve__"]) s1))) tt
  | Ok s1 (Some t) => Err s1 t
  | Err s1 t => Err s1 t
  | OutOfFuel => OutOfFuel
  end.
Proof.
  unfold orchestrate.
  replace (sequencify _ _ _ _ _)
    with (Sequence ["styles"; "html"; "webpack"; "__serve__"]) by by vm_compute.
  cbn [length].
  rewrite (run_waves_step _ _ _ _ _ ["styles"; "html"; "webpack"]); [|by vm_compute..].
  destruct (run_wave _ _ _ _) as [s1 [t|]|s1 t|]; try reflexivity.
  rewrite (run_waves_step _ _ _ _ _ ["__serve__"]); [|by vm_compute..].
  rewrite (run_wave_cons _ _ _ _ _ task___serve__); [|reflexivity].
  rewrite serve_body. cbn [run_wave].
  apply run_waves_done. by vm_compute.
Qed.

Lemma orchestrate_serve (st : list string → M unit) (s : state) :
  orchestrate (gulpfile ext st) ["serve"] s =
  match st ["__serve__"]
          (set_vars (Globals true (BASE_HREF (vars s)) (webpackInstance (vars s)))
             (add_event (Launch ["serve"]) s)) with
  | Ok s' _ => Ok (add_event (Stop "serve") s') tt
  | Err s' e => Err (add_event (TaskErr "serve") s') e
  | OutOfFuel => OutOfFuel
  end.
Proof.
  rewrite orchestrate_set; [|by vm_compute|done|by vm_compute].
  rewrite (run_wave_cons _ _ _ _ _ (task_serve st)); [|reflexivity].
  cbn [fn task_serve runSequence]. unfold bind, ret.
  cbn [vars add_event].
  by destruct (st ["__serve__"] _) as [s' []|s' e|].
Qed.

Lemma orchestrate_serve_dist (st : list string → M unit) (s : state) :
  orchestrate (gulpfile ext st) ["serve:dist"] s =
  match orchestrate (gulpfile ext st) ["default"] s with
  | Ok s1 _ => Ok (after_serve_dist s1) tt
  | Err s1 e => Err s1 e
  | OutOfFuel => OutOfFuel
  end.
Proof.
  rewrite orchestrate_default. unfold orchestrate at 1.
  replace (sequencify _ _ _ _ _)
    with (Sequence ["clean"; "default"; "serve:dist"]) by by vm_compute.
  cbn [length].
  rewrite (run_waves_step _ _ _ _ _ ["clean"]); [|by vm_compute..].
  rewrite (run_wave_cons _ _ _ _ _ (task_clean)); [|reflexivity].
  cbn [fn task_clean run_wave].
  rewrite (run_waves_step _ _ _ _ _ ["default"]); [|by vm_compute..].
  rewrite (run_wave_cons _ _ _ _ _ (task_default st)); [|reflexivity].
  cbn [fn task_default]. fold (after_clean s).
  destruct (runSequence _ _ _) as [s1 []|s1 e|]; cbn [run_wave first_failure];
    reflexivity.
Qed.

(** The run of [serve], in full: development mode is switched on first;
    [styles], [html] and [webpack] are started together; when all three
    have ended normally the body of [__serve__] starts browser-sync and
    registers the watchers; when one of them fails it does not run. *)
Lemma serve_run (fuel : nat) (s : state) :
  ∃ s' evs,
    Forall leaf_event evs ∧
    DEV_MODE (vars s') = true ∧
    ((start ext (S (S (S fuel))) ["serve"] s = Ok s' tt ∧
      trace s' = trace s ++
        Launch ["serve"] :: Launch ["styles"; "html"; "webpack"] :: evs ++
        [Launch ["__serve__"]; BrowserSync 3000; Stop "__serve__"; Stop "serve"] ∧
      watchers s' = watchers s ++ serve_watchers ∧
      webpack_watch s' = true) ∨
     (∃ t, start ext (S (S (S fuel))) ["serve"] s = Err s' t ∧
        t ∈ ["styles"; "html"; "webpack"] ∧
        trace s' = trace s ++
          Launch ["serve"] :: Launch ["styles"; "html"; "webpack"] :: evs ++
          [TaskErr "serve"] ∧
        watchers s' = watchers s ∧
        webpack_watch s' = webpack_watch s)).
Proof.
  change (start ext (S (S (S fuel))) ["serve"] s)
    with (orchestrate (gulpfile ext (start ext (S (S fuel)))) ["serve"] s).
  rewrite orchestrate_serve.
  change (start ext (S (S fuel)) ["__serve__"])
    with (orchestrate (gulpfile ext (start ext (S fuel))) ["__serve__"]).
  rewrite orchestrate___serve__.
  set (s0 := set_vars _ _).
  destruct (wave_more (start ext (S fuel)) ["styles"; "html"; "webpack"])
    with (failed := @None string)
         (s := add_event (Launch ["styles"; "html"; "webpack"]) s0)
    as (s1 & evs & failed' & -> & Htr & Hev & Hk & _ & Hf & Hw).
  { intros x Hx. repeat (apply elem_of_cons in Hx as [->|Hx]);
      try (by apply elem_of_nil in Hx); apply (bool_decide_unpack _); by vm_compute. }
  destruct Hk as (Hd & Hb & Hs & Hwa & Hq).
  subst s0. simpl in Htr, Hd, Hb, Hs, Hwa, Hq, Hw.
  destruct failed' as [t|].
  - exists (add_event (TaskErr "serve") s1), evs. split; [done|].
    split; [done|]. right. exists t. split; [done|].
    split; [by apply (Hf eq_refl)|].
    split; [simpl; rewrite Htr; by rewrite <- !app_assoc|]. by split.
  - exists (add_event (Stop "serve")
              (add_event (Stop "__serve__")
                 (after_serve_body (add_event (Launch ["__serve__"]) s1)))), evs.
    split; [done|]. split; [exact Hd|]. left. split; [done|].
    split; [simpl; rewrite Htr; by rewrite <- !app_assoc|].
    split; [simpl; by rewrite Hwa|].
    simpl. rewrite Hw; [done|]. right.
    apply (bool_decide_unpack _); by vm_compute.
Qed.

End Serving.

(** X2. When [gulp serve] gets through, the process is in development
    mode, one browser-sync server runs (port 3000), the three watchers of
    [__serve__] are registered after those already there, and webpack's
    own watcher is on; the tasks were started as [serve], then [styles],
    [html] and [webpack] together, then [__serve__]. *)
Theorem serve_enters_watch_mode (ext : string → bool → string → world → ext_result)
    (fuel : nat) (s s' : state) :
  start ext (S (S (S fuel))) ["serve"] s = Ok s' tt →
  DEV_MODE (vars s') = true ∧
  watchers s' = watchers s ++ serve_watchers ∧
  webpack_watch s' = true ∧
  servers (drop (length (trace s)) (trace s')) = [3000] ∧
  launched (drop (length (trace s)) (trace s')) =
    [["serve"]; ["styles"; "html"; "webpack"]; ["__serve__"]].
Proof.
  intros Hok.
  destruct (serve_run ext fuel s) as (s1 & evs & Hev & Hd & Hrun).
  destruct Hrun as [(Hok1 & Htr & Hw & Hq) | (t & Herr & _)];
    [|rewrite Hok in Herr; discriminate Herr].
  rewrite Hok in Hok1. injection Hok1 as ->. clear Hok.
  rewrite Htr, drop_app_length.
  split; [exact Hd|]. split; [exact Hw|]. split; [exact Hq|].
  change (Launch ["serve"] :: Launch ["styles"; "html"; "webpack"] :: evs ++
            [Launch ["__serve__"]; BrowserSync 3000; Stop "__serve__"; Stop "serve"])
    with ([Launch ["serve"]; Launch ["styles"; "html"; "webpack"]] ++ evs ++
            [Launch ["__serve__"]; BrowserSync 3000; Stop "__serve__"; Stop "serve"]).
  rewrite !servers_app, !launched_app, (servers_leaf evs), (launched_leaf evs) by done.
  by split.
Qed.

(** X2, at work: from the freshly loaded build file, with quiet plugins. *)
Lemma serve_enters_watch_mode_quiet :
  start quiet 3 ["serve"] (init empty_world) = Ok serve_state tt ∧
  DEV_MODE (vars serve_state) = true ∧
  watchers serve_state = watchers (init empty_world) ++ serve_watchers ∧
  webpack_watch serve_state = true ∧
  servers (drop (length (trace (init empty_world))) (trace serve_state)) = [3000] ∧
  launched (drop (length (trace (init empty_world))) (trace serve_state)) =
    [["serve"]; ["styles"; "html"; "webpack"]; ["__serve__"]].
Proof.
  assert (start quiet 3 ["serve"] (init empty_world) = Ok serve_state tt) as H
    by by vm_compute.
  split; [exact H|].
  exact (serve_enters_watch_mode quiet 0 (init empty_world) serve_state H).
Defined.

(** X3. When [gulp serve] fails, it is one of the declared dependencies of
    [__serve__] that failed, and the body of [__serve__] never ran: no
    browser-sync server was started, no watcher was registered, and
    [__serve__] itself was not started. *)
Theorem serve_needs_its_dependencies
    (ext : string → bool → string → world → ext_result)
    (fuel : nat) (s s' : state) (t : string) :
  start ext (S (S (S fuel))) ["serve"] s = Err s' t →
  t ∈ dep task___serve__ ∧
  watchers s' = watchers s ∧
  webpack_watch s' = webpack_watch s ∧
  servers (drop (length (trace s)) (trace s')) = [] ∧
  launched (drop (length (trace s)) (trace s')) =
    [["serve"]; ["styles"; "html"; "webpack"]].
Proof.
  intros Herr.
  destruct (serve_run ext fuel s) as (s1 & evs & Hev & Hd & Hrun).
  destruct Hrun as [(Hok1 & _) | (t1 & Herr1 & Ht & Htr & Hw & Hq)];
    [rewrite Herr in Hok1; discriminate Hok1|].
  rewrite Herr in Herr1. injection Herr1 as -> ->. clear Herr.
  rewrite Htr, drop_app_length.
  split; [exact Ht|]. split; [exact Hw|]. split; [exact Hq|].
  change (Launch ["serve"] :: Launch ["styles"; "html"; "webpack"] :: evs ++
            [TaskErr "serve"])
    with ([Launch ["serve"]; Launch ["styles"; "html"; "webpack"]] ++ evs ++
            [TaskErr "serve"]).
  rewrite !servers_app, !launched_app, (servers_leaf evs), (launched_leaf evs) by done.
  by split.
Qed.

(** X3, at work: the stylesheet cannot be written. *)
Lemma serve_needs_its_dependencies_styles :
  ∃ s',
    start dest_fails 3 ["serve"] (init empty_world) = Err s' "styles" ∧
    "styles" ∈ dep task___serve__ ∧
    watchers s' = watchers (init empty_world) ∧
    webpack_watch s' = webpack_watch (init empty_world) ∧
    servers (drop (length (trace (init empty_world))) (trace s')) = [] ∧
    launched (drop (length (trace (init empty_world))) (trace s')) =
      [["serve"]; ["styles"; "html"; "webpack"]].
Proof.
  eexists. split; [by vm_compute|].
  eapply (serve_needs_its_dependencies dest_fails 0 (init empty_world)).
  by vm_compute.
Defined.

(** X4. [serve:dist] is the default build followed by a server: it ends as
    the default build ends, and only when that ended normally is
    browser-sync started, on port 3001, with nothing else changed; the
    build it serves ran with the [DEV_MODE] the process had. *)
Theorem serve_dist_after_default (ext : string → bool → string → world → ext_result)
    (fuel : nat) (s : state) :
  start ext (S (S fuel)) ["serve:dist"] s =
    match start ext (S (S fuel)) ["default"] s with
    | Ok s1 _ => Ok (after_serve_dist s1) tt
    | Err s1 e => Err s1 e
    | OutOfFuel => OutOfFuel
    end ∧
  ∃ s',
    (start ext (S (S fuel)) ["serve:dist"] s = Ok s' tt ∨
     ∃ t, start ext (S (S fuel)) ["serve:dist"] s = Err s' t) ∧
    DEV_MODE (vars s') = DEV_MODE (vars s).
Proof.
  assert (start ext (S (S fuel)) ["serve:dist"] s =
            match start ext (S (S fuel)) ["default"] s with
            | Ok s1 _ => Ok (after_serve_dist s1) tt
            | Err s1 e => Err s1 e
            | OutOfFuel => OutOfFuel
            end) as Heq.
  { cbn [start]. apply orchestrate_serve_dist. }
  split; [exact Heq|]. rewrite Heq. clear Heq.
  destruct (default_run ext fuel s) as (s1 & tr & _ & (Hd & _) & Hrun).
  destruct Hrun as [(-> & _) | (i & stage & t & -> & _)].
  - exists (after_serve_dist s1). split; [by left|exact Hd].
  - exists s1. split; [right; by exists t|exact Hd].
Qed.

(** ** What no run undoes *)

Section Keeps.

(** A relation between the globals before and after, kept by the two
    assignments the build file makes. *)
Variable P : globals → globals → Prop.
Hypothesis P_refl : ∀ g, P g g.
Hypothesis P_trans : ∀ g1 g2 g3, P g1 g2 → P g2 g3 → P g1 g3.
Hypothesis P_webpack : ∀ g, P g (Globals (DEV_MODE g) (BASE_HREF g) true).
Hypothesis P_serve : ∀ g, P g (Globals true (BASE_HREF g) (webpackInstance g)).

Let Q (s s' : state) : Prop := P (vars s) (vars s').

Lemma keeps_ret {A} (a : A) : keeps Q (ret a).
Proof. intros s. apply P_refl. Qed.

Lemma keeps_bind {A B} (m : M A) (k : A → M B) :
  keeps Q m → (∀ a, keeps Q (k a)) → keeps Q (bind m k).
Proof.
  intros Hm Hk s. unfold bind. specialize (Hm s).
  destruct (m s) as [s1 a|s1 t|]; [|done..].
  specialize (Hk a s1). destruct (k a s1); [by eapply P_trans..|done].
Qed.

Lemma keeps_external (ext : string → bool → string → world → ext_result)
    (t : string) (pipeline : list (string * on_error)) :
  keeps Q (external ext t pipeline).
Proof.
  intros s. unfold external. destruct (raised _) as [p|]; [|apply P_refl].
  destruct (handling pipeline p); apply P_refl.
Qed.

Lemma keeps_runSequence (st : list string → M unit) (sets : list (list string)) :
  (∀ names, keeps Q (st names)) → keeps Q (runSequence st sets).
Proof.
  intros Hst. induction sets as [|set sets IH]; cbn [runSequence].
  - apply keeps_ret.
  - apply keeps_bind; [apply Hst|done].
Qed.

Lemma keeps_run_wave (tasks : gmap string task) (ts : list string)
    (failed : option string) :
  map_Forall (λ _ node, keeps Q (fn node)) tasks →
  keeps Q (run_wave tasks ts failed).
Proof.
  intros Htasks. revert failed. induction ts as [|t ts IH]; intros failed s.
  - apply P_refl.
  - cbn [run_wave]. destruct (tasks !! t) as [node|] eqn:Hl; [|apply P_refl].
    specialize (Htasks t node Hl s). simpl in Htasks.
    destruct (fn node s) as [s1 []|s1 e|]; [..|done].
    + specialize (IH failed (add_event (Stop t) s1)).
      destruct (run_wave _ _ _ _); [by eapply P_trans..|done].
    + specialize (IH (first_failure failed e) (add_event (TaskErr t) s1)).
      destruct (run_wave _ _ _ _); [by eapply P_trans..|done].
Qed.

Lemma keeps_run_waves (n : nat) (tasks : gmap string task) (seq done : list string) :
  map_Forall (λ _ node, keeps Q (fn node)) tasks →
  keeps Q (run_waves n tasks seq done).
Proof.
  intros Htasks. revert done. induction n as [|n IH]; intros done s; cbn [run_waves].
  - destruct (List.filter _ seq); [apply P_refl|done].
  - destruct (List.filter _ seq); [apply P_refl|].
    pose proof (keeps_run_wave tasks (List.filter (ready_now tasks done) seq)
                  None Htasks (add_event (Launch (List.filter (ready_now tasks done) seq)) s))
      as Hw.
    destruct (run_wave _ _ _ _) as [s1 [t|]|s1 t|]; [exact Hw| |exact Hw|done].
    specialize (IH (done ++ List.filter (ready_now tasks done) seq) s1).
    destruct (run_waves _ _ _ _ _); [by eapply P_trans..|done].
Qed.

Lemma keeps_orchestrate (tasks : gmap string task) (names : list string) :
  map_Forall (λ _ node, keeps Q (fn node)) tasks →
  keeps Q (orchestrate tasks names).
Proof.
  intros Htasks s. unfold orchestrate.
  destruct (sequencify _ _ _ _ _); [|apply P_refl..|done].
  apply (keeps_run_waves _ _ _ _ Htasks).
Qed.

Lemma keeps_gulpfile (ext : string → bool → string → world → ext_result)
    (st : list string → M unit) :
  (∀ names, keeps Q (st names)) →
  map_Forall (λ _ node, keeps Q (fn node)) (gulpfile ext st).
Proof.
  intros Hst. unfold gulpfile. rewrite !list_to_map_cons, list_to_map_nil.
  repeat (apply map_Forall_insert_2; [|]); [..|apply map_Forall_empty];
    cbn [fn task_webpack task_res task_copy task_styles task_html task_clean
           task_serve task___serve__ task_serve_dist task_service_worker
           task_default task_deploy browserSync];
    repeat first
      [ apply keeps_external
      | apply keeps_runSequence; [exact Hst]
      | apply keeps_bind; [|intros _] ];
    intros s; unfold Q; simpl;
    first [apply P_refl | apply P_webpack | apply P_serve | idtac].
  destruct (webpackInstance (vars s)); apply P_refl.
Qed.

Lemma keeps_start (ext : string → bool → string → world → ext_result)
    (fuel : nat) (names : list string) :
  keeps Q (start ext fuel names).
Proof.
  revert names. induction fuel as [|fuel IH]; intros names; [done|].
  cbn [start]. apply keeps_orchestrate, keeps_gulpfile, IH.
Qed.

Lemma keeps_watch_step (ext : string → bool → string → world → ext_result)
    (fuel : nat) (i : input) :
  keeps Q (watch_step ext fuel i).
Proof.
  intros s. destruct i as [p|]; cbn [watch_step].
  - generalize (List.filter (λ w, glob_select (w_globs w) p) (watchers s)).
    intros ws. revert s. induction ws as [|w ws IH]; intros s; cbn [fire_all].
    + apply P_refl.
    + unfold bind, fire.
      destruct (w_action w) as [ts|].
      * pose proof (keeps_start ext fuel ts s) as H.
        destruct (start ext fuel ts s) as [s1 []|s1 e|]; [| |done].
        -- specialize (IH (add_event Reload s1)). unfold log.
           change (fire_all ext fuel ws
                     (State (vars s1) (fs s1) (watchers s1) (webpack_watch s1)
                        (trace s1 ++ [Reload])))
             with (fire_all ext fuel ws (add_event Reload s1)).
           destruct (fire_all ext fuel ws (add_event Reload s1));
             [by eapply P_trans..|done].
        -- specialize (IH (add_event Reload s1)). unfold log.
           change (fire_all ext fuel ws
                     (State (vars s1) (fs s1) (watchers s1) (webpack_watch s1)
                        (trace s1 ++ [Reload])))
             with (fire_all ext fuel ws (add_event Reload s1)).
           destruct (fire_all ext fuel ws (add_event Reload s1));
             [by eapply P_trans..|done].
      * specialize (IH (add_event Reload s)). unfold log.
        change (fire_all ext fuel ws
                  (State (vars s) (fs s) (watchers s) (webpack_watch s)
                     (trace s ++ [Reload])))
          with (fire_all ext fuel ws (add_event Reload s)).
        destruct (fire_all ext fuel ws (add_event Reload s)); [exact IH..|done].
  - destruct (webpack_watch s); apply P_refl.
Qed.

End Keeps.

(** X5. Nothing resets development mode: once [DEV_MODE] is true (after
    [serve]), it is true after every later run of any targets and after
    every watch event, however they end. *)
Theorem dev_mode_sticks (ext : string → bool → string → world → ext_result)
    (fuel : nat) (names : list string) (i : input) (s : state) :
  DEV_MODE (vars s) = true →
  match start ext fuel names s with
  | Ok s' _ | Err s' _ => DEV_MODE (vars s') = true
  | OutOfFuel => True
  end ∧
  match watch_step ext fuel i s with
  | Ok s' _ | Err s' _ => DEV_MODE (vars s') = true
  | OutOfFuel => True
  end.
Proof.
  intros Hdev.
  assert (∀ A (m : M A),
            keeps (λ s s', DEV_MODE (vars s) = true → DEV_MODE (vars s') = true) m →
            match m s with
            | Ok s' _ | Err s' _ => DEV_MODE (vars s') = true
            | OutOfFuel => True
            end) as Huse.
  { intros A m Hm. specialize (Hm s). destruct (m s); auto. }
  split; apply Huse.
  - apply (keeps_start (λ g g', DEV_MODE g = true → DEV_MODE g' = true)); auto.
  - apply (keeps_watch_step (λ g g', DEV_MODE g = true → DEV_MODE g' = true)); auto.
Qed.

(** X5, at work: a default build after [serve], in the same process, runs
    in development mode. *)
Lemma dev_mode_sticks_after_serve :
  DEV_MODE (vars serve_state) = true ∧
  match start quiet 2 ["default"] serve_state with
  | Ok s' _ | Err s' _ => DEV_MODE (vars s') = true
  | OutOfFuel => True
  end ∧
  match watch_step quiet 2 (Changed ["app"; "html"; "index.html"]) serve_state with
  | Ok s' _ | Err s' _ => DEV_MODE (vars s') = true
  | OutOfFuel => True
  end.
Proof.
  split; [reflexivity|].
  exact (dev_mode_sticks quiet 2 ["default"] (Changed ["app"; "html"; "index.html"])
           serve_state eq_refl).
Defined.

(** ** What the watchers select *)

Lemma app_glob_iff (ext_ : string) (path : list string) :
  has_char "*" ext_ = false →
  segs_match [Seg (atoms_of "app"); GlobStar; Seg (GStar :: atoms_of ext_)] path = true ↔
  ∃ dirs name, path = "app" :: dirs ++ [name] ∧
    Forall (λ d, is_dot d = false) dirs ∧ is_dot name = false ∧ ends_with ext_ name.
Proof.
  intros Hs. split.
  - intros H. destruct path as [|a rest]; [done|].
    cbn [segs_match] in H. apply andb_prop in H as [Ha H].
    apply seg_match_literal in Ha as ->; [|done..].
    apply segs_match_globstar_last in H as (dirs & name & -> & Hd & Hn).
    exists dirs, name. unfold seg_match in Hn.
    apply andb_prop in Hn as [Hdot Hw]. simpl in Hdot.
    rewrite orb_false_r in Hdot. apply negb_true_iff in Hdot.
    by apply wild_suffix in Hw.
  - intros (dirs & name & -> & Hd & Hdot & He).
    cbn [segs_match]. rewrite seg_match_same by done. simpl andb.
    apply segs_match_globstar_last. exists dirs, name.
    repeat split; [done|]. unfold seg_match. rewrite Hdot. cbn [negb orb andb].
    by apply wild_suffix.
Qed.

(** X6. The stylesheet watcher selects exactly the [.scss] and [.css]
    files under [app], at any depth, that are not hidden: no name on the
    way starts with a dot. *)
Theorem styles_watcher_selects (p : list string) :
  glob_select styles_watch_globs p = true ↔ stylesheet_path p.
Proof.
  unfold glob_select, styles_watch_globs.
  cbn [existsb forallb negated segs negb andb orb].
  rewrite !andb_true_r, orb_false_r, orb_true_iff.
  change (segs_match _ p = true ∨ segs_match _ p = true) with
    (segs_match [Seg (atoms_of "app"); GlobStar; Seg (GStar :: atoms_of ".scss")] p
       = true ∨
     segs_match [Seg (atoms_of "app"); GlobStar; Seg (GStar :: atoms_of ".css")] p
       = true).
  rewrite !app_glob_iff by done. unfold stylesheet_path. split.
  - intros [(dirs & name & -> & Hd & Hn & He)|(dirs & name & -> & Hd & Hn & He)];
      exists dirs, name; auto.
  - intros (dirs & name & -> & Hd & Hn & [He|He]); [left|right];
      by exists dirs, name.
Qed.

Lemma res_not_html (p : list string) :
  glob_select res_watch_globs p = true → glob_select html_watch_globs p = false.
Proof.
  intros Hr. apply not_true_is_false. intros Hh.
  unfold glob_select, res_watch_globs, html_watch_globs in Hr, Hh.
  cbn [existsb forallb negated segs negb andb orb] in Hr, Hh.
  rewrite !andb_true_r, orb_false_r in Hr, Hh.
  destruct p as [|a [|b rest]]; try done.
  - simpl in Hr. by rewrite andb_false_r in Hr.
  - change (seg_match (atoms_of "app") a &&
              (seg_match (atoms_of "res") b &&
                 segs_match [GlobStar; Seg [GStar]] rest) = true) in Hr.
    change (seg_match (atoms_of "app") a &&
              (seg_match (atoms_of "html") b &&
                 segs_match [GlobStar; Seg (GStar :: atoms_of ".html")] rest) = true)
      in Hh.
    apply andb_prop in Hr as [_ Hr]. apply andb_prop in Hr as [Hr _].
    apply andb_prop in Hh as [_ Hh]. apply andb_prop in Hh as [Hh _].
    apply seg_match_literal in Hr; [|done..].
    apply seg_match_literal in Hh; [|done..]. congruence.
Qed.

Lemma outside_app (gs : list glob) (p : list string) :
  Forall (λ g, ∃ rest, segs g = Seg (atoms_of "app") :: rest) gs →
  hd_error p ≠ Some "app" →
  glob_select gs p = false.
Proof.
  intros Hgs Hp. unfold glob_select.
  assert (existsb (λ g, negb (negated g) && segs_match (segs g) p) gs = false) as ->;
    [|done].
  induction Hgs as [|g gs [rest Hg] _ IH]; [done|]. cbn [existsb].
  rewrite IH, orb_false_r, Hg. destruct p as [|a p'].
  - by rewrite andb_false_r.
  - cbn [segs_match].
    destruct (seg_match (atoms_of "app") a) eqn:Ha; [|by rewrite andb_false_r].
    apply seg_match_literal in Ha as ->; [|done..]. by destruct Hp.
Qed.

(** X7. While watching, a change to a file under [app/res] that is no
    stylesheet starts no task: [reload] is called at once and nothing else
    happens. *)
Theorem res_change_only_reloads (ext : string → bool → string → world → ext_result)
    (fuel : nat) (s : state) (p : list string) :
  watchers s = serve_watchers →
  glob_select res_watch_globs p = true →
  glob_select styles_watch_globs p = false →
  watch_step ext fuel (Changed p) s = Ok (add_event Reload s) tt.
Proof.
  intros Hw Hr Hst. cbn [watch_step].
  rewrite Hw, serve_watchers_select, Hr, Hst, (res_not_html p Hr).
  reflexivity.
Qed.

(** X7, at work: an icon changes. *)
Lemma res_change_only_reloads_icon :
  watchers serve_state = serve_watchers ∧
  glob_select res_watch_globs ["app"; "res"; "icon.png"] = true ∧
  glob_select styles_watch_globs ["app"; "res"; "icon.png"] = false ∧
  watch_step quiet 1 (Changed ["app"; "res"; "icon.png"]) serve_state
    = Ok (add_event Reload serve_state) tt.
Proof.
  split; [reflexivity|]. split; [reflexivity|]. split; [reflexivity|].
  apply (res_change_only_reloads quiet 1 serve_state ["app"; "res"; "icon.png"]);
    reflexivity.
Defined.

(** X8. While watching, a change to a file outside [app] does nothing at
    all: no task is started, [reload] is not called, the state is as it
    was. *)
Theorem change_outside_app_ignored (ext : string → bool → string → world → ext_result)
    (fuel : nat) (s : state) (p : list string) :
  watchers s = serve_watchers →
  hd_error p ≠ Some "app" →
  watch_step ext fuel (Changed p) s = Ok s tt.
Proof.
  intros Hw Hp. cbn [watch_step].
  rewrite Hw, serve_watchers_select.
  rewrite !(outside_app _ p) by
    (try exact Hp; repeat constructor; eexists; reflexivity).
  reflexivity.
Qed.

(** X8, at work: the build file itself changes. *)
Lemma change_outside_app_ignored_gulpfile :
  watchers serve_state = serve_watchers ∧
  hd_error ["gulpfile.babel.js"] ≠ Some "app" ∧
  watch_step quiet 1 (Changed ["gulpfile.babel.js"]) serve_state = Ok serve_state tt.
Proof.
  split; [reflexivity|]. split; [by intros [=]|].
  apply (change_outside_app_ignored quiet 1 serve_state ["gulpfile.babel.js"]).
  - reflexivity.
  - by intros [=].
Defined.

(** X9. A partial template (a name that starts with an underscore, under
    [app/html]) is not an input of the [html] task, yet the page watcher
    selects it: while watching, a change to a partial starts the [html]
    task, alone, and the pages are rendered again. *)
Theorem partial_change_renders_pages
    (ext : string → bool → string → world → ext_result)
    (fuel : nat) (s : state) (dirs : list string) (name : string) :
  watchers s = serve_watchers →
  Forall (λ d, is_dot d = false) dirs →
  starts_with "_" name = true →
  ends_with ".html" name →
  glob_select html_globs ("app" :: "html" :: dirs ++ [name]) = false ∧
  glob_select html_watch_globs ("app" :: "html" :: dirs ++ [name]) = true ∧
  ∃ s' tr,
    watch_step ext (S fuel) (Changed ("app" :: "html" :: dirs ++ [name])) s = Ok s' tt ∧
    trace s' = trace s ++ tr ∧
    launched tr = [["html"]].
Proof.
  intros Hw Hd Hu He.
  assert (is_dot name = false) as Hdot.
  { destruct name as [|c name]; [done|]. simpl in Hu.
    rewrite andb_true_r in Hu. by apply bool_decide_eq_true in Hu as <-. }
  assert (glob_select html_watch_globs ("app" :: "html" :: dirs ++ [name]) = true) as Hsel.
  { unfold glob_select, html_watch_globs.
    cbn [existsb forallb negated segs negb andb orb].
    rewrite !andb_true_r, orb_false_r.
    apply html_positive. by exists dirs, name. }
  split; [|split; [exact Hsel|]].
  - apply not_true_is_false. intros H. apply html_globs_select in H
      as (dirs' & name' & Heq & _ & _ & Hu' & _).
    injection Heq as Heq. apply app_inj_tail in Heq as [_ <-]. congruence.
  - destruct (watch_change ext fuel s _ "html" Hw (or_intror (conj eq_refl Hsel)))
      as (s1 & evs & rest & s' & Htr1 & Hla & _ & Hstep & Htr & Hrest).
    exists s', (Launch ["html"] :: evs ++ Reload :: rest).
    split; [exact Hstep|]. split; [rewrite Htr, Htr1; by rewrite <- app_assoc|].
    change (launched (Launch ["html"] :: evs ++ Reload :: rest))
      with (["html"] :: launched (evs ++ Reload :: rest)).
    rewrite launched_app, Hla. by destruct Hrest as [-> | ->].
Qed.

(** X9, at work: the layout partial changes. *)
Lemma partial_change_renders_pages_layout :
  watchers serve_state = serve_watchers ∧
  starts_with "_" "_layout.html" = true ∧
  ends_with ".html" "_layout.html" ∧
  glob_select html_globs ("app" :: "html" :: [] ++ ["_layout.html"]) = false ∧
  glob_select html_watch_globs ("app" :: "html" :: [] ++ ["_layout.html"]) = true ∧
  ∃ s' tr,
    watch_step quiet 1 (Changed ("app" :: "html" :: [] ++ ["_layout.html"])) serve_state
      = Ok s' tt ∧
    trace s' = trace serve_state ++ tr ∧
    launched tr = [["html"]].
Proof.
  assert (ends_with ".html" "_layout.html") as He by by exists "_layout".
  split; [reflexivity|]. split; [reflexivity|]. split; [exact He|].
  exact (partial_change_renders_pages quiet 0 serve_state [] "_layout.html"
           eq_refl (List.Forall_nil _) eq_refl He).
Defined.

(** ** Globs with the [dot] option *)

Lemma segs_match_opt_false (ps : list gseg) (path : list string) :
  segs_match_opt false ps path = segs_match ps path.
Proof.
  revert path. induction ps as [|[|p] ps IH]; intros path.
  - done.
  - induction path as [|s path IHp].
    + simpl. by rewrite IH.
    + change (segs_match_opt false (GlobStar :: ps) (s :: path)) with
        (segs_match_opt false ps (s :: path) ||
           (false || negb (is_dot s)) && segs_match_opt false (GlobStar :: ps) path).
      rewrite segs_match_globstar, IH, IHp. done.
  - destruct path as [|s path]; [done|]. simpl. by rewrite IH.
Qed.

Lemma segs_match_opt_globstar (dot : bool) (ps : list gseg) (path : list string) :
  segs_match_opt dot (GlobStar :: ps) path =
  segs_match_opt dot ps path ||
  match path with
  | [] => false
  | s :: path' => (dot || negb (is_dot s)) && segs_match_opt dot (GlobStar :: ps) path'
  end.
Proof. by destruct path. Qed.

Lemma wild_any (s : string) : wild [GStar] s = true.
Proof.
  induction s as [|c s IH]; rewrite wild_star; [done|].
  rewrite IH. apply orb_true_r.
Qed.

(** [dir/**/*] with [dot: true]: every path below [dir]. *)
Lemma below_dir_dot (dir : string) (path : list string) :
  has_char "*" dir = false →
  segs_match_opt true [Seg (atoms_of dir); GlobStar; Seg [GStar]] path = true ↔
  ∃ dirs name, path = dir :: dirs ++ [name].
Proof.
  intros Hdir.
  assert (∀ rest, segs_match_opt true [GlobStar; Seg [GStar]] rest = true ↔
                  ∃ dirs name, rest = dirs ++ [name]) as Hrest.
  { intros rest. split.
    - intros H. destruct rest as [|r rest _] using rev_ind.
      + by vm_compute in H.
      + by exists rest, r.
    - intros (dirs & name & ->).
      induction dirs as [|d dirs IH]; rewrite segs_match_opt_globstar.
      + simpl. unfold seg_match_opt. by rewrite wild_any.
      + change ((d :: dirs) ++ [name]) with (d :: (dirs ++ [name])). cbv iota.
        rewrite IH. apply orb_true_r. }
  split.
  - destruct path as [|a rest]; [done|].
    change (segs_match_opt true [Seg (atoms_of dir); GlobStar; Seg [GStar]] (a :: rest))
      with (seg_match_opt true (atoms_of dir) a &&
              segs_match_opt true [GlobStar; Seg [GStar]] rest).
    intros H. apply andb_prop in H as [Ha H].
    unfold seg_match_opt in Ha. simpl in Ha.
    apply wild_literal in Ha as ->; [|done].
    apply Hrest in H as (dirs & name & ->). by exists dirs, name.
  - intros (dirs & name & ->).
    change (seg_match_opt true (atoms_of dir) dir &&
              segs_match_opt true [GlobStar; Seg [GStar]] (dirs ++ [name]) = true).
    apply andb_true_intro. split.
    + unfold seg_match_opt. simpl. by apply wild_literal.
    + apply Hrest. by exists dirs, name.
Qed.

Lemma copy_root_select (path : list string) :
  glob_select_opt true copy_root_globs path = true ↔
  ∃ name, path = ["app"; name] ∧ name ≠ "sw-prod.js".
Proof.
  unfold glob_select_opt, copy_root_globs.
  cbn [existsb forallb negated segs negb andb orb].
  rewrite !andb_true_r, orb_false_r.
  change (segs_match_opt true _ path && negb (segs_match_opt true _ path)) with
    (segs_match_opt true [Seg (atoms_of "app"); Seg [GStar]] path &&
     negb (segs_match_opt true [Seg (atoms_of "app"); Seg (atoms_of "sw-prod.js")] path)).
  rewrite andb_true_iff, negb_true_iff. split.
  - intros [Hp Hn]. destruct path as [|a [|b [|c rest]]]; try done.
    + simpl in Hp. by rewrite andb_false_r in Hp.
    + change (seg_match_opt true (atoms_of "app") a &&
                (seg_match_opt true [GStar] b && true) = true) in Hp.
      apply andb_prop in Hp as [Ha _]. unfold seg_match_opt in Ha. simpl orb in Ha.
      cbn [andb] in Ha. apply wild_literal in Ha as ->; [|done].
      exists b. split; [done|]. intros ->. done.
    + simpl in Hp. by rewrite !andb_false_r in Hp.
  - intros (name & -> & Hne). split.
    + change (seg_match_opt true (atoms_of "app") "app" &&
                (seg_match_opt true [GStar] name && true) = true).
      unfold seg_match_opt. simpl orb. cbn [andb]. by rewrite wild_any.
    + change (seg_match_opt true (atoms_of "app") "app" &&
                (seg_match_opt true (atoms_of "sw-prod.js") name && true) = false).
      rewrite andb_true_r. apply not_true_is_false. intros H.
      apply andb_prop in H as [_ H]. unfold seg_match_opt in H. simpl orb in H.
      cbn [andb] in H. by apply wild_literal in H.
Qed.

Lemma copy_older_select (path : list string) :
  glob_select_opt true copy_older_globs path = true ↔
  ∃ dirs name, path = "older-version" :: dirs ++ [name].
Proof.
  unfold glob_select_opt, copy_older_globs.
  cbn [existsb forallb negated segs negb andb orb].
  rewrite !andb_true_r, orb_false_r.
  by apply (below_dir_dot "older-version").
Qed.

(** X10. [copy] takes every file that lies directly in [app], hidden ones
    included, except [sw-prod.js], and writes it under the same name in
    [dist]; it takes every file below [older-version], hidden ones included,
    and writes it at the same path below [dist]; it writes nothing else. *)
Theorem copy_selection (p q : list string) :
  q ∈ copy_dest p ↔
  (∃ name, p = ["app"; name] ∧ name ≠ "sw-prod.js" ∧ q = ["dist"; name]) ∨
  (∃ dirs name, p = "older-version" :: dirs ++ [name] ∧ q = "dist" :: p).
Proof.
  unfold copy_dest. rewrite elem_of_app. split.
  - intros [H|H].
    + destruct (glob_select_opt true copy_root_globs p) eqn:Hsel;
        [|by apply elem_of_nil in H].
      apply copy_root_select in Hsel as (name & -> & Hne).
      apply list_elem_of_singleton in H as ->. left. by exists name.
    + destruct (glob_select_opt true copy_older_globs p) eqn:Hsel;
        [|by apply elem_of_nil in H].
      apply copy_older_select in Hsel as (dirs & name & ->).
      apply list_elem_of_singleton in H as ->. right. by exists dirs, name.
  - intros [(name & -> & Hne & ->)|(dirs & name & -> & ->)].
    + left.
      assert (glob_select_opt true copy_root_globs ["app"; name] = true) as ->
        by (apply copy_root_select; by exists name).
      by apply list_elem_of_singleton.
    + right.
      assert (glob_select_opt true copy_older_globs
                ("older-version" :: dirs ++ [name]) = true) as ->
        by (apply copy_older_select; by exists dirs, name).
      by apply list_elem_of_singleton.
Qed.

(** ** The precache list *)

Lemma top_pattern (u : string) (rel : list string) :
  has_char "*" u = false →
  segs_match_opt false [Seg (GStar :: atoms_of u)] rel = true ↔
  ∃ name, rel = [name] ∧ is_dot name = false ∧ ends_with u name.
Proof.
  intros Hu. split.
  - destruct rel as [|name [|b rest]]; [done| |].
    + change (seg_match_opt false (GStar :: atoms_of u) name && true = true → 
              ∃ name0, [name] = [name0] ∧ is_dot name0 = false ∧ ends_with u name0).
      rewrite andb_true_r. unfold seg_match_opt. intros H.
      apply andb_prop in H as [Hd Hw]. simpl in Hd. rewrite orb_false_r in Hd.
      apply negb_true_iff in Hd. apply wild_suffix in Hw; [|done]. by exists name.
    + intros H. exfalso.
      change (seg_match_opt false (GStar :: atoms_of u) name && false = true) in H.
      by rewrite andb_false_r in H.
  - intros (name & -> & Hd & He).
    change (seg_match_opt false (GStar :: atoms_of u) name && true = true).
    rewrite andb_true_r. unfold seg_match_opt. rewrite Hd. cbn [negb orb andb].
    by apply wild_suffix.
Qed.

Lemma deep_pattern (u : string) (rel : list string) :
  has_char "*" u = false →
  segs_match_opt false [GlobStar; Seg (GStar :: atoms_of u)] rel = true ↔
  ∃ dirs name, rel = dirs ++ [name] ∧ Forall (λ d, is_dot d = false) dirs ∧
    is_dot name = false ∧ ends_with u name.
Proof.
  intros Hu. rewrite segs_match_opt_false, segs_match_globstar_last.
  split; intros (dirs & name & -> & Hd & H); exists dirs, name;
    (split; [done|]); (split; [done|]).
  - unfold seg_match in H. apply andb_prop in H as [Hdot Hw]. simpl in Hdot.
    rewrite orb_false_r in Hdot. apply negb_true_iff in Hdot.
    by apply wild_suffix in Hw.
  - destruct H as [Hdot He]. unfold seg_match. rewrite Hdot. cbn [negb orb andb].
    by apply wild_suffix.
Qed.


(** X12. What [copy] brings from [older-version] lands below
    [dist/older-version], and [service-worker] never asks to precache
    it, whatever its name. *)
Theorem older_version_not_precached (p q : list string) :
  hd_error p = Some "older-version" →
  q ∈ copy_dest p →
  ∃ rest, q = "dist" :: "older-version" :: rest ∧
          precache_select ("older-version" :: rest) = false.
Proof.
  intros Hp Hq. unfold copy_dest in Hq. apply elem_of_app in Hq as [Hq|Hq].
  - destruct (glob_select_opt true copy_root_globs p) eqn:Hsel;
      [|by apply elem_of_nil in Hq].
    by apply copy_root_select in Hsel as (name & -> & _).
  - destruct (glob_select_opt true copy_older_globs p) eqn:Hsel;
      [|by apply elem_of_nil in Hq].
    apply copy_older_select in Hsel as (dirs & name & ->).
    apply list_elem_of_singleton in Hq as ->.
    exists (dirs ++ [name]). split; [done|].
    unfold precache_select, precache_ignores. cbn [existsb segs].
    assert (segs_match_opt true
              [Seg (atoms_of "older-version"); GlobStar; Seg [GStar]]
              ("older-version" :: dirs ++ [name]) = true) as Hm
      by (apply (below_dir_dot "older-version"); [done|]; by exists dirs, name).
    change (segs_match_opt true _ ("older-version" :: dirs ++ [name])) with
      (segs_match_opt true [Seg (atoms_of "older-version"); GlobStar; Seg [GStar]]
         ("older-version" :: dirs ++ [name])).
    rewrite Hm. apply andb_false_r.
Qed.

(** X12, at work: a script of the old version. *)
Lemma older_version_not_precached_script :
  hd_error ["older-version"; "js"; "app.js"] = Some "older-version" ∧
  ["dist"; "older-version"; "js"; "app.js"]
    ∈ copy_dest ["older-version"; "js"; "app.js"] ∧
  ∃ rest, ["dist"; "older-version"; "js"; "app.js"] = "dist" :: "older-version" :: rest ∧
          precache_select ("older-version" :: rest) = false.
Proof.
  assert (["dist"; "older-version"; "js"; "app.js"]
            ∈ copy_dest ["older-version"; "js"; "app.js"]) as Hin
    by (vm_compute; apply list_elem_of_here).
  split; [reflexivity|]. split; [exact Hin|].
  exact (older_version_not_precached ["older-version"; "js"; "app.js"]
           ["dist"; "older-version"; "js"; "app.js"] eq_refl Hin).
Defined.

(** ** The rename in [styles] *)

Lemma string_length_app (x y : string) :
  String.length (x +:+ y) = String.length x + String.length y.
Proof. induction x as [|c x IH]; [done|]. rewrite app_cons. simpl. by rewrite IH. Qed.

Lemma replace_end_suffix (suffix rep x : string) :
  replace_end suffix rep (x +:+ suffix) = x +:+ rep.
Proof.
  induction x as [|c x IH].
  - rewrite !app_empty. destruct suffix; simpl; by rewrite ?Ascii.eqb_refl, ?String.eqb_refl.
  - rewrite !app_cons.
    change (replace_end suffix rep (String c (x +:+ suffix))) with
      (if String.eqb (String c (x +:+ suffix)) suffix then rep
       else String c (replace_end suffix rep (x +:+ suffix))).
    destruct (String.eqb_spec (String c (x +:+ suffix)) suffix) as [Heq|_].
    + apply (f_equal String.length) in Heq. simpl in Heq.
      rewrite string_length_app in Heq. lia.
    + by rewrite IH.
Qed.

Lemma replace_end_other (suffix rep s : string) :
  ¬ ends_with suffix s → replace_end suffix rep s = s.
Proof.
  induction s as [|c s IH]; intros Hn.
  - destruct suffix; [|done]. destruct Hn. by exists EmptyString.
  - change (replace_end suffix rep (String c s)) with
      (if String.eqb (String c s) suffix then rep
       else String c (replace_end suffix rep s)).
    destruct (String.eqb_spec (String c s) suffix) as [Heq|_].
    + destruct Hn. exists EmptyString. by rewrite app_empty.
    + rewrite IH; [done|]. intros [x ->]. apply Hn. exists (String c x).
      by rewrite app_cons.
Qed.

(** X13. The rename at the end of [styles]: a path that ends with
    [.entry.css] loses the [.entry] of that ending and nothing else; any
    other path is left as it is. *)
Theorem styles_rename_entry (x path : string) :
  styles_rename (x +:+ ".entry.css") = x +:+ ".css" ∧
  (¬ ends_with ".entry.css" path → styles_rename path = path).
Proof.
  split.
  - apply replace_end_suffix.
  - apply replace_end_other.
Qed.

(** X13, at work: the compiled entry stylesheet, and its source map. *)
Lemma styles_rename_entry_app :
  styles_rename ("app/styles/app" +:+ ".entry.css") = "app/styles/app" +:+ ".css" ∧
  ¬ ends_with ".entry.css" "app.css.map" ∧
  styles_rename "app.css.map" = "app.css.map".
Proof.
  assert (¬ ends_with ".entry.css" "app.css.map") as Hn.
  { intros [x H]. destruct x as [|c [|d x]]; [discriminate H|discriminate H|].
    apply (f_equal String.length) in H. rewrite string_length_app in H.
    simpl in H. lia. }
  split; [exact (proj1 (styles_rename_entry "app/styles/app" "app.css.map"))|].
  split; [exact Hn|].
  exact (proj2 (styles_rename_entry "app/styles/app" "app.css.map") Hn).
Defined.
